(** * kvstore: slotted pages and the page manager

    A shallow embedding of [page.go] and [storage.go].

    - Go's fixed-width unsigned integers are [Z] with the wrap-around
      written out ([wrap16], [wrap32], [wrap64]).
    - The page buffer [Ptr [PageSize-HeaderSize]byte] is a [list byte];
      the array type fixes its length, which the model records in
      [page_typed].
    - Go strings are byte sequences: [string]; [[]byte(s)] is
      [list_byte_of_string s].
    - A slice expression whose bounds leave the array panics; the model
      returns [Panic].  A [for] loop over page ids runs on fuel and returns
      [Timeout] when it is used up.
    - The backing file is a byte list together with a script of injected
      I/O faults; the manager threads it through every call. *)

From Stdlib Require Import String Strings.Byte.
From Stdlib Require Import ZArith List Lia Bool.
Import ListNotations.

Local Open Scope string_scope.
Local Open Scope list_scope.
Local Open Scope Z_scope.

(* ------------------------------------------------------------------ *)
(** ** Outcomes of a call *)

Inductive exec (A : Type) : Type :=
| Ret (a : A)
| Panic
| Timeout.

Arguments Ret {A} a.
Arguments Panic {A}.
Arguments Timeout {A}.

Definition bind {A B : Type} (m : exec A) (k : A -> exec B) : exec B :=
  match m with
  | Ret a => k a
  | Panic => Panic
  | Timeout => Timeout
  end.

Notation "x <- m ;; k" := (bind m (fun x => k))
  (at level 61, m at next level, right associativity).

(** Go's [error] values built by [errors.New] carry their message. *)
Definition error : Type := string.
Definition errors_New (msg : string) : error := msg.

(* ------------------------------------------------------------------ *)
(** ** Constants (page.go, lines 12-20) *)

Definition PageSize : Z := 4096.
Definition HeaderSize : Z := 16.
Definition SlotArrSize : Z := 6.
Definition KeySize : Z := 2.
Definition ValueSize : Z := 2.
Definition MaxKeyBytes : Z := 400.
Definition MaxValueBytes : Z := 400.

(* ------------------------------------------------------------------ *)
(** ** Fixed-width integers and bytes *)

Definition wrap16 (z : Z) : Z := z mod 2 ^ 16.
Definition wrap32 (z : Z) : Z := z mod 2 ^ 32.
Definition wrap64 (z : Z) : Z := z mod 2 ^ 64.

(** [int(x)] for an unsigned 64-bit [x] on a 64-bit platform. *)
Definition int_of_uint64 (z : Z) : Z :=
  if z <? 2 ^ 63 then z else z - 2 ^ 64.

Definition is_uint16 (z : Z) : Prop := 0 <= z < 2 ^ 16.
Definition is_uint32 (z : Z) : Prop := 0 <= z < 2 ^ 32.
Definition is_uint64 (z : Z) : Prop := 0 <= z < 2 ^ 64.

(** [byte(v)]: the low eight bits. *)
Definition byte_of_Z (z : Z) : byte :=
  match Byte.of_N (Z.to_N (z mod 256)) with
  | Some b => b
  | None => x00
  end.

Definition Z_of_byte (b : byte) : Z := Z.of_N (Byte.to_N b).

Definition lenZ {A : Type} (l : list A) : Z := Z.of_nat (length l).

(** [len(s)] of a Go string: its number of bytes. *)
Definition slen (s : string) : Z := Z.of_nat (String.length s).

Definition at_ (bs : list byte) (i : nat) : Z := Z_of_byte (nth i bs x00).

(** encoding/binary, [LittleEndian]. *)
Definition PutUint16 (v : Z) : list byte :=
  [byte_of_Z v; byte_of_Z (Z.shiftr v 8)].

Definition Uint16 (b : list byte) : Z :=
  Z.lor (at_ b 0) (Z.shiftl (at_ b 1) 8).

Definition PutUint32 (v : Z) : list byte :=
  [byte_of_Z v; byte_of_Z (Z.shiftr v 8);
   byte_of_Z (Z.shiftr v 16); byte_of_Z (Z.shiftr v 24)].

Definition Uint32 (b : list byte) : Z :=
  Z.lor (Z.lor (Z.lor (at_ b 0) (Z.shiftl (at_ b 1) 8))
               (Z.shiftl (at_ b 2) 16))
        (Z.shiftl (at_ b 3) 24).

Definition PutUint64 (v : Z) : list byte :=
  [byte_of_Z v; byte_of_Z (Z.shiftr v 8);
   byte_of_Z (Z.shiftr v 16); byte_of_Z (Z.shiftr v 24);
   byte_of_Z (Z.shiftr v 32); byte_of_Z (Z.shiftr v 40);
   byte_of_Z (Z.shiftr v 48); byte_of_Z (Z.shiftr v 56)].

Definition Uint64 (b : list byte) : Z :=
  Z.lor (Z.lor (Z.lor (Z.lor (Z.lor (Z.lor (Z.lor
    (at_ b 0)
    (Z.shiftl (at_ b 1) 8))
    (Z.shiftl (at_ b 2) 16))
    (Z.shiftl (at_ b 3) 24))
    (Z.shiftl (at_ b 4) 32))
    (Z.shiftl (at_ b 5) 40))
    (Z.shiftl (at_ b 6) 48))
    (Z.shiftl (at_ b 7) 56).

(* ------------------------------------------------------------------ *)
(** ** Arrays, slices and [copy] *)

(** [a[lo:hi]] is legal when [0 <= lo <= hi <= len(a)]. *)
Definition in_bounds (buf : list byte) (lo hi : Z) : bool :=
  (0 <=? lo) && (lo <=? hi) && (hi <=? lenZ buf).

(** The bytes of [buf[lo:hi]]. *)
Definition sub (buf : list byte) (lo hi : Z) : list byte :=
  firstn (Z.to_nat (hi - lo)) (skipn (Z.to_nat lo) buf).

(** [buf] with [src] laid over it from position [lo]. *)
Definition upd (buf : list byte) (lo : Z) (src : list byte) : list byte :=
  firstn (Z.to_nat lo) buf ++ src
    ++ skipn (Z.to_nat lo + length src) buf.

(** [buf[lo:hi]], panicking out of range. *)
Definition slice (buf : list byte) (lo hi : Z) : exec (list byte) :=
  if in_bounds buf lo hi then Ret (sub buf lo hi) else Panic.

(** [copy(buf[lo:hi], src)]: copies [min(hi-lo, len(src))] bytes. *)
Definition copy_to (buf : list byte) (lo hi : Z) (src : list byte)
  : exec (list byte) :=
  if in_bounds buf lo hi
  then Ret (upd buf lo (firstn (Z.to_nat (hi - lo)) src))
  else Panic.

(** [binary.LittleEndian.PutUint16(buf[lo:lo+2], v)]. *)
Definition put16 (buf : list byte) (lo : Z) (v : Z) : exec (list byte) :=
  copy_to buf lo (lo + 2) (PutUint16 v).

(** [binary.LittleEndian.Uint16(buf[lo:lo+2])]. *)
Definition get16 (buf : list byte) (lo : Z) : exec Z :=
  b <- slice buf lo (lo + 2) ;; Ret (Uint16 b).

(* ------------------------------------------------------------------ *)
(** ** Types (page.go, lines 26-112) *)

Record SlotArr : Type := mkSlotArr {
  offset : Z;   (* uint16 *)
  len : Z;      (* uint16 *)
  flag : Z      (* uint16 *)
}.

Record Page : Type := mkPage {
  PageId : Z;        (* uint64 *)
  Count : Z;         (* uint32 *)
  FreeSpace : Z;     (* uint16 *)
  DataStart : Z;     (* uint16 *)
  Ptr : list byte    (* [PageSize - HeaderSize]byte *)
}.

Record DatabaseMeta : Type := mkMeta {
  NextPageId : Z;    (* uint64 *)
  PageCount : Z;     (* uint64 *)
  LastPageId : Z     (* uint64 *)
}.

(** What Go's types guarantee of a [Page] value: of the fields
    [WriteRecord] and [ReadRecord] work on, and of all of them. *)
Definition body_typed (p : Page) : Prop :=
  is_uint32 (Count p) /\
  is_uint16 (FreeSpace p) /\ is_uint16 (DataStart p) /\
  lenZ (Ptr p) = PageSize - HeaderSize.

Definition page_typed (p : Page) : Prop :=
  is_uint64 (PageId p) /\ body_typed p.

Definition set_Ptr (p : Page) (b : list byte) : Page :=
  mkPage (PageId p) (Count p) (FreeSpace p) (DataStart p) b.

Definition set_DataStart (p : Page) (d : Z) : Page :=
  mkPage (PageId p) (Count p) (FreeSpace p) d (Ptr p).

(* ------------------------------------------------------------------ *)
(** ** Page methods: slot array (page.go, lines 118-132) *)

Definition GetSlot (p : Page) (index : Z) : exec SlotArr :=
  let slotOffset := index * SlotArrSize in
  o <- get16 (Ptr p) slotOffset ;;
  l <- get16 (Ptr p) (slotOffset + 2) ;;
  f <- get16 (Ptr p) (slotOffset + 4) ;;
  Ret (mkSlotArr o l f).

Definition SetSlot (p : Page) (index : Z) (slot : SlotArr) : exec Page :=
  let slotOffset := index * SlotArrSize in
  b1 <- put16 (Ptr p) slotOffset (offset slot) ;;
  b2 <- put16 b1 (slotOffset + 2) (len slot) ;;
  b3 <- put16 b2 (slotOffset + 4) (flag slot) ;;
  Ret (set_Ptr p b3).

(* ------------------------------------------------------------------ *)
(** ** Page methods: records (page.go, lines 138-220) *)

(** The receiver is mutated in place; the model returns the page as the
    call leaves it together with the returned [error] ([None] is [nil]). *)
Definition WriteRecord (p : Page) (key value : string)
  : exec (Page * option error) :=
  let keyBytes := list_byte_of_string key in
  let valueBytes := list_byte_of_string value in
  if lenZ keyBytes >? MaxKeyBytes then
    Ret (p, Some (errors_New "key size exceeds maximum allowed"))
  else if lenZ valueBytes >? MaxValueBytes then
    Ret (p, Some (errors_New "value size exceeds maximum allowed"))
  else
    let recordSize := KeySize + ValueSize + lenZ keyBytes + lenZ valueBytes in
    if FreeSpace p <? recordSize + SlotArrSize then
      Ret (p, Some (errors_New "not enough space"))
    else
      let p0 := if Count p =? 0
                then set_DataStart p (PageSize - HeaderSize) else p in
      let newDataStart := wrap16 (DataStart p0 - wrap16 recordSize) in
      let writePos := newDataStart in
      b1 <- put16 (Ptr p0) writePos (wrap16 (lenZ keyBytes)) ;;
      let writePos := writePos + 2 in
      b2 <- put16 b1 writePos (wrap16 (lenZ valueBytes)) ;;
      let writePos := writePos + 2 in
      b3 <- copy_to b2 writePos (writePos + lenZ keyBytes) keyBytes ;;
      let writePos := writePos + lenZ keyBytes in
      b4 <- copy_to b3 writePos (writePos + lenZ valueBytes) valueBytes ;;
      let slot := mkSlotArr newDataStart (wrap16 recordSize) 0 in
      p1 <- SetSlot (set_Ptr p0 b4) (Count p0) slot ;;
      Ret (mkPage (PageId p1)
                  (wrap32 (Count p1 + 1))
                  (wrap16 (FreeSpace p1 - wrap16 (recordSize + SlotArrSize)))
                  newDataStart
                  (Ptr p1),
           None).

(** The body of the [for] loop of [ReadRecord], [n] iterations from
    index [i].  The index is a uint32 below [Count], so [i++] never wraps. *)
Fixpoint ReadRecord_loop (p : Page) (keyBytes : list byte) (n : nat) (i : Z)
  : exec (string * bool) :=
  match n with
  | O => Ret ("", false)
  | S n' =>
      slot <- GetSlot p i ;;
      if negb (flag slot =? 0) then ReadRecord_loop p keyBytes n' (i + 1)
      else
        let pos := offset slot in
        keySize <- get16 (Ptr p) pos ;;
        let pos := pos + 2 in
        valueSize <- get16 (Ptr p) pos ;;
        let pos := pos + 2 in
        recordKey <- slice (Ptr p) pos (pos + keySize) ;;
        let pos := pos + keySize in
        recordValue <- slice (Ptr p) pos (pos + valueSize) ;;
        if String.eqb (string_of_list_byte recordKey)
                      (string_of_list_byte keyBytes)
        then Ret (string_of_list_byte recordValue, true)
        else ReadRecord_loop p keyBytes n' (i + 1)
  end.

Definition ReadRecord (p : Page) (key : string) : exec (string * bool) :=
  ReadRecord_loop p (list_byte_of_string key) (Z.to_nat (Count p)) 0.

Definition HasSpace (p : Page) (recordSize : Z) : bool :=
  FreeSpace p >=? recordSize.

(* ------------------------------------------------------------------ *)
(** ** The block store (storage.go) *)

(** The state behind an [*os.File]: the bytes of the file and a script of
    injected faults, one entry per I/O call still to come ([true]: that
    call fails and transfers nothing; an empty script means no fault). *)
Record os_File : Type := mkFile {
  data : list byte;
  faults : list bool
}.

Record Disk : Type := mkDisk {
  FilePath : string;
  File : os_File
}.

Definition io_EOF : error := "EOF".
Definition io_fault : error := "input/output error".
Definition negative_offset : error := "negative offset".

Definition zeros (n : Z) : list byte := repeat x00 (Z.to_nat n).

Definition next_fault (f : os_File) : bool * os_File :=
  match faults f with
  | [] => (false, f)
  | b :: rest => (b, mkFile (data f) rest)
  end.

(** [f.ReadAt(buf, off)] on a zeroed [buf] of [n] bytes: the buffer as the
    call leaves it, and the error.  Fewer than [n] bytes read is [io.EOF]. *)
Definition ReadAt (f : os_File) (n off : Z)
  : (list byte * option error) * os_File :=
  if off <? 0 then ((zeros n, Some negative_offset), f)
  else
    let (bad, f') := next_fault f in
    if bad then ((zeros n, Some io_fault), f')
    else
      let avail := skipn (Z.to_nat off) (data f) in
      if n <=? lenZ avail
      then ((firstn (Z.to_nat n) avail, None), f')
      else ((firstn (Z.to_nat n) (avail ++ zeros n), Some io_EOF), f').

(** [f.WriteAt(b, off)]: the file grows, zero-filled, as far as needed. *)
Definition WriteAt (f : os_File) (b : list byte) (off : Z)
  : option error * os_File :=
  if off <? 0 then (Some negative_offset, f)
  else
    let (bad, f') := next_fault f in
    if bad then (Some io_fault, f')
    else
      let padded := data f ++ zeros (off - lenZ (data f)) in
      (None, mkFile (upd padded off b) (faults f')).

Definition Disk_Read (disk : Disk) (offset n : Z)
  : (list byte * option error) * Disk :=
  let (r, f) := ReadAt (File disk) n offset in
  (r, mkDisk (FilePath disk) f).

Definition Disk_Write (disk : Disk) (offset : Z) (b : list byte)
  : (Z * option error) * Disk :=
  let (err, f) := WriteAt (File disk) b offset in
  match err with
  | Some e => ((0, Some e), mkDisk (FilePath disk) f)
  | None => ((1, None), mkDisk (FilePath disk) f)
  end.

(* ------------------------------------------------------------------ *)
(** ** The page manager (page.go, lines 226-385) *)

Record PageManager : Type := mkPM {
  Pages : list Page;
  Disk_ : Disk;
  MetaData : DatabaseMeta
}.

Definition set_Disk (pm : PageManager) (d : Disk) : PageManager :=
  mkPM (Pages pm) d (MetaData pm).

Definition NewPageManager (disk : Disk) : PageManager :=
  mkPM [] disk (mkMeta 1 0 1).

(** The new page has the zero value in [DataStart]. *)
Definition CreatePage (pm : PageManager) : Page * PageManager :=
  let page := mkPage (NextPageId (MetaData pm)) 0 (PageSize - HeaderSize) 0
                     (zeros (PageSize - HeaderSize)) in
  let lastPageId := NextPageId (MetaData pm) in
  let nextPageId := wrap64 (lastPageId + 1) in
  let pageCount := wrap64 (PageCount (MetaData pm) + 1) in
  (page, mkPM (Pages pm) (Disk_ pm) (mkMeta nextPageId pageCount lastPageId)).

Definition LoadMetaPage (pm : PageManager) : option error * PageManager :=
  let '((buf, err), d) := Disk_Read (Disk_ pm) 0 PageSize in
  match err with
  | Some e => (Some e, set_Disk pm d)
  | None =>
      (None, mkPM (Pages pm) d
               (mkMeta (Uint64 (sub buf 0 8)) (Uint64 (sub buf 8 16))
                       (Uint64 (sub buf 16 24))))
  end.

Definition SaveMetaDataPage (pm : PageManager) : option error * PageManager :=
  let buf := zeros PageSize in
  let buf := upd buf 0 (PutUint64 (NextPageId (MetaData pm))) in
  let buf := upd buf 8 (PutUint64 (PageCount (MetaData pm))) in
  let buf := upd buf 16 (PutUint64 (LastPageId (MetaData pm))) in
  let '((_, err), d) := Disk_Write (Disk_ pm) 0 buf in
  (err, set_Disk pm d).

(** [int(pageId * PageSize)]. *)
Definition pageOffset (pageId : Z) : Z :=
  int_of_uint64 (wrap64 (pageId * PageSize)).

(** The decoding half of [LoadPage]: the page parsed out of a page image. *)
Definition LoadPage_parse (buf : list byte) : Page :=
  let pageIdFromDisk := Uint64 (sub buf 0 8) in
  let count := Uint32 (sub buf 8 12) in
  let freeSpace := Uint16 (sub buf 12 14) in
  let dataStart := Uint16 (sub buf 14 16) in
  mkPage pageIdFromDisk count freeSpace dataStart
         (upd (zeros (PageSize - HeaderSize)) 0
              (firstn (Z.to_nat (PageSize - HeaderSize))
                      (sub buf HeaderSize (lenZ buf)))).

Definition LoadPage (pm : PageManager) (pageId : Z)
  : (Page + error) * PageManager :=
  let '((buf, err), d) := Disk_Read (Disk_ pm) (pageOffset pageId) PageSize in
  match err with
  | Some e => (inr e, set_Disk pm d)
  | None => (inl (LoadPage_parse buf), set_Disk pm d)
  end.

(** The encoding half of [writePageToDisk]: the page image it writes. *)
Definition writePageToDisk_buf (page : Page) : list byte :=
  let buf := zeros PageSize in
  let buf := upd buf 0 (PutUint64 (PageId page)) in
  let buf := upd buf 8 (PutUint32 (Count page)) in
  let buf := upd buf 12 (PutUint16 (FreeSpace page)) in
  let buf := upd buf 14 (PutUint16 (DataStart page)) in
  upd buf HeaderSize (firstn (Z.to_nat (PageSize - HeaderSize)) (Ptr page)).

Definition writePageToDisk (pm : PageManager) (page : Page)
  : option error * PageManager :=
  let buf := writePageToDisk_buf page in
  let '((_, err), d) := Disk_Write (Disk_ pm) (pageOffset (PageId page)) buf in
  (err, set_Disk pm d).

(** [for pageId := uint64(1); pageId <= LastPageId; pageId++] on fuel. *)
Fixpoint findPageWithSpace_loop (fuel : nat) (pm : PageManager)
  (recordSize : Z) (pageId : Z) : exec ((Page + error) * PageManager) :=
  match fuel with
  | O => Timeout
  | S fuel' =>
      if pageId <=? LastPageId (MetaData pm) then
        let (r, pm1) := LoadPage pm pageId in
        match r with
        | inr _ =>
            findPageWithSpace_loop fuel' pm1 recordSize (wrap64 (pageId + 1))
        | inl page =>
            if HasSpace page recordSize then Ret (inl page, pm1)
            else findPageWithSpace_loop fuel' pm1 recordSize
                                        (wrap64 (pageId + 1))
        end
      else Ret (inr (errors_New "no page with enough space"), pm)
  end.

Definition findPageWithSpace (fuel : nat) (pm : PageManager) (recordSize : Z)
  : exec ((Page + error) * PageManager) :=
  findPageWithSpace_loop fuel pm recordSize 1.

(** The last two statements of [InsertRecord]. *)
Definition InsertRecord_write (pm : PageManager) (pageWithSpace : Page)
  (key value : string) : exec (option error * PageManager) :=
  r <- WriteRecord pageWithSpace key value ;;
  let (page, err) := r in
  match err with
  | Some e => Ret (Some e, pm)
  | None => Ret (writePageToDisk pm page)
  end.

Definition InsertRecord (fuel : nat) (pm : PageManager) (key value : string)
  : exec (option error * PageManager) :=
  let recordSize := KeySize + ValueSize + slen key + slen value in
  found <- findPageWithSpace fuel pm recordSize ;;
  let (r, pm) := found in
  match r with
  | inl pageWithSpace => InsertRecord_write pm pageWithSpace key value
  | inr _ =>
      let (pageWithSpace, pm) := CreatePage pm in
      let (err, pm) := writePageToDisk pm pageWithSpace in
      match err with
      | Some e => Ret (Some e, pm)
      | None =>
          (* the result of SaveMetaDataPage is dropped *)
          let (_, pm) := SaveMetaDataPage pm in
          InsertRecord_write pm pageWithSpace key value
      end
  end.

Fixpoint FindRecord_loop (fuel : nat) (pm : PageManager) (key : string)
  (pageId : Z) : exec ((string * option error) * PageManager) :=
  match fuel with
  | O => Timeout
  | S fuel' =>
      if pageId <=? LastPageId (MetaData pm) then
        let (r, pm1) := LoadPage pm pageId in
        match r with
        | inr _ => FindRecord_loop fuel' pm1 key (wrap64 (pageId + 1))
        | inl page =>
            res <- ReadRecord page key ;;
            let (value, found) := res : string * bool in
            if found then Ret ((value, None), pm1)
            else FindRecord_loop fuel' pm1 key (wrap64 (pageId + 1))
        end
      else Ret (("", Some (errors_New "key not found")), pm)
  end.

Definition FindRecord (fuel : nat) (pm : PageManager) (key : string)
  : exec ((string * option error) * PageManager) :=
  FindRecord_loop fuel pm key 1.

(* ================================================================== *)
(** * Notions used in the statements *)

(** The byte at position [j] of a buffer. *)
Definition byte_at (buf : list byte) (j : Z) : byte :=
  nth (Z.to_nat j) buf x00.

(** [recordSize] as [WriteRecord] and [InsertRecord] compute it. *)
Definition recordSize (key value : string) : Z :=
  KeySize + ValueSize + slen key + slen value.

(** The boundary below which [WriteRecord] places the next record: the
    stored [DataStart], or the top of the buffer while the page is empty. *)
Definition dataTop (p : Page) : Z :=
  if Count p =? 0 then PageSize - HeaderSize else DataStart p.

(** The encoded record and the encoded slot entry. *)
Definition record_bytes (key value : string) : list byte :=
  PutUint16 (slen key) ++ PutUint16 (slen value)
    ++ list_byte_of_string key ++ list_byte_of_string value.

Definition slot_bytes (s : SlotArr) : list byte :=
  PutUint16 (offset s) ++ PutUint16 (len s) ++ PutUint16 (flag s).

(** The page a successful [WriteRecord] leaves. *)
Definition written (p : Page) (key value : string) : Page :=
  let rs := recordSize key value in
  let nds := dataTop p - rs in
  mkPage (PageId p) (Count p + 1) (FreeSpace p - (rs + SlotArrSize)) nds
         (upd (upd (Ptr p) nds (record_bytes key value))
              (Count p * SlotArrSize) (slot_bytes (mkSlotArr nds rs 0))).

(** The slot entry stored at index [i], and the two length fields of the
    record stored at [off]. *)
Definition slot_at (buf : list byte) (i : Z) : SlotArr :=
  mkSlotArr (Uint16 (sub buf (i * 6) (i * 6 + 2)))
            (Uint16 (sub buf (i * 6 + 2) (i * 6 + 4)))
            (Uint16 (sub buf (i * 6 + 4) (i * 6 + 6))).

Definition klen_at (buf : list byte) (off : Z) : Z :=
  Uint16 (sub buf off (off + 2)).

Definition vlen_at (buf : list byte) (off : Z) : Z :=
  Uint16 (sub buf (off + 2) (off + 4)).

(** Slot [i] points at a record that lies between [top] and the end of
    the buffer. *)
Definition slot_ok (buf : list byte) (top : Z) (i : Z) : Prop :=
  let off := offset (slot_at buf i) in
  top <= off /\
  off + 4 + klen_at buf off + vlen_at buf off <= PageSize - HeaderSize.

(** The invariant: the free-space equation (with [dataTop] for the
    boundary, which is [DataStart] once the page holds a record), and
    every slot pointing into the record region. *)
Definition page_inv (p : Page) : Prop :=
  body_typed p /\
  FreeSpace p = dataTop p - Count p * SlotArrSize /\
  dataTop p <= PageSize - HeaderSize /\
  forall i, 0 <= i < Count p -> slot_ok (Ptr p) (dataTop p) i.

(** [q]'s buffer has the bytes of [p]'s in the first [c] slots and from
    [top] upward. *)
Definition agree (p q : Page) (c top : Z) : Prop :=
  lenZ (Ptr q) = lenZ (Ptr p) /\
  forall j, 0 <= j < c * 6 \/ top <= j ->
            byte_at (Ptr q) j = byte_at (Ptr p) j.

(** The conditions under which [WriteRecord] succeeds on a page that
    satisfies the invariant, gathered for arithmetic. *)
Definition fits (p : Page) (key value : string) : Prop :=
  slen key <= MaxKeyBytes /\ slen value <= MaxValueBytes /\
  recordSize key value + SlotArrSize <= FreeSpace p.

(** A sequence of [WriteRecord] calls on one page, each returning [nil]:
    the page they leave, or [None] as soon as a call fails or panics. *)
Fixpoint writeAll (p : Page) (kvs : list (string * string)) : option Page :=
  match kvs with
  | [] => Some p
  | (key, value) :: rest =>
      match WriteRecord p key value with
      | Ret (p', None) => writeAll p' rest
      | _ => None
      end
  end.

(** Successive [InsertRecord] calls: the errors they return, in order. *)
Fixpoint InsertRecords (fuel : nat) (pm : PageManager)
  (kvs : list (string * string)) : exec (list (option error) * PageManager) :=
  match kvs with
  | [] => Ret ([], pm)
  | (key, value) :: rest =>
      r <- InsertRecord fuel pm key value ;;
      let (err, pm1) := r in
      rs <- InsertRecords fuel pm1 rest ;;
      let (errs, pm2) := rs in
      Ret (err :: errs, pm2)
  end.

(** The manager a call leaves ([pm] if it did not return). *)
Definition state_of {A : Type} (pm : PageManager)
  (r : exec (A * PageManager)) : PageManager :=
  match r with
  | Ret (_, pm') => pm'
  | _ => pm
  end.

(** A new manager over an empty file without faults. *)
Definition new_store (path : string) : PageManager :=
  NewPageManager (mkDisk path (mkFile [] [])).

(** The page [CreatePage] makes first, on a new manager. *)
Definition first_page : Page :=
  mkPage 1 0 (PageSize - HeaderSize) 0 (zeros (PageSize - HeaderSize)).

(** The page [LoadPage] reads at [pageId]. *)
Definition page_of (pm : PageManager) (pageId : Z) : Page :=
  match fst (LoadPage pm pageId) with
  | inl q => q
  | inr _ => first_page
  end.

(** The metadata page once page 1 exists, and the manager of a fault-free
    store with that metadata in memory and the file [d]. *)
Definition meta_image : list byte :=
  upd (upd (upd (zeros PageSize) 0 (PutUint64 2)) 8 (PutUint64 1))
      16 (PutUint64 1).

Definition store_with (path : string) (d : list byte) : PageManager :=
  mkPM [] (mkDisk path (mkFile d [])) (mkMeta 2 1 1).

(** The manager of a fault-free store whose file is the metadata page
    followed by the image of page 1, [q]. *)
Definition holds (path : string) (pm : PageManager) (q : Page) : Prop :=
  exists meta_page,
    lenZ meta_page = PageSize /\
    pm = store_with path (meta_page ++ writePageToDisk_buf q).

(* ------------------------------------------------------------------ *)
(** ** Concrete inputs *)

Definition store0 : Disk := mkDisk "test.db" (mkFile [] []).
Definition pm0 : PageManager := NewPageManager store0.
Definition page0 : Page := fst (CreatePage pm0).
Definition page_a : Page := written page0 "a" "hello".
Definition page_ab : Page := written page_a "b" "world".
Definition page_ax : Page := written page0 "a" "x".
Definition page_axy : Page := written page_ax "a" "y".
Definition page_e : Page := written page0 "" "x".
Definition page_ey : Page := written page_e "" "y".

(** A string of [n] letters [k], and one of 400. *)
Definition letters (n : nat) : string :=
  string_of_list_byte (repeat "k"%byte n).

Definition big : string := letters 400.

(** A page of the Go type with [Count = 0] whose fields satisfy the
    equation of the invariant with a [DataStart] below the top. *)
Definition page_low : Page := mkPage 1 0 100 100 (zeros 4080).

(** An empty store whose third I/O call will fail, and the states
    [InsertRecord("k","v")] goes through on it. *)
Definition faulty_store : Disk :=
  mkDisk "test.db" (mkFile [] [false; false; true]).

Definition c1_start : PageManager := NewPageManager faulty_store.
Definition c1_searched : PageManager :=
  state_of c1_start (findPageWithSpace 2 c1_start (recordSize "k" "v")).
Definition c1_created : PageManager := snd (CreatePage c1_searched).
Definition c1_persisted : PageManager :=
  snd (writePageToDisk c1_created first_page).
Definition c1_meta_failed : PageManager :=
  snd (SaveMetaDataPage c1_persisted).
Definition c1_end : PageManager :=
  state_of c1_start (InsertRecord 2 c1_start "k" "v").

(** Inserts that fill page 1 down to 14 free bytes, and one more. *)
Definition c2_inserts : list (string * string) :=
  [(big, big); (big, big); (big, big); (big, big); (big, big);
   ("a", "hello"); ("b", "world")].

Definition c2_before : PageManager :=
  state_of (new_store "test.db")
           (InsertRecords 2 (new_store "test.db") (firstn 6 c2_inserts)).

Definition c2_page : Page := page_of c2_before 1.

(** Two inserts of one key that land in different pages: page 1 is filled
    down to 30 free bytes, ["a"] with a 400-byte value goes to a new page
    2, and ["a"] with ["y"] then fits into page 1. *)
Definition c7_inserts : list (string * string) :=
  [(big, big); (big, big); (big, big); (big, big); (big, big);
   ("a", big); ("a", "y")].

Definition c7_state : PageManager :=
  state_of (new_store "test.db")
           (InsertRecords 3 (new_store "test.db") c7_inserts).

(* ------------------------------------------------------------------ *)
(** ** Notions for the further properties *)

(** The value of the first pair with [key] in a list of pairs. *)
Fixpoint first_value (key : string) (kvs : list (string * string))
  : option string :=
  match kvs with
  | [] => None
  | (k, v) :: rest => if String.eqb k key then Some v else first_value key rest
  end.

(** The bytes the records of [kvs] take, without and with their slots. *)
Fixpoint records_size (kvs : list (string * string)) : Z :=
  match kvs with
  | [] => 0
  | (k, v) :: rest => recordSize k v + records_size rest
  end.

Definition used_size (kvs : list (string * string)) : Z :=
  records_size kvs + lenZ kvs * SlotArrSize.

(** The store has no injected fault left, and the bytes of its file. *)
Definition fault_free (pm : PageManager) : Prop :=
  faults (File (Disk_ pm)) = [].

Definition file_data (pm : PageManager) : list byte :=
  data (File (Disk_ pm)).

(** The largest page id whose byte offset fits a signed 64-bit [int]. *)
Definition max_page_id : Z := 2 ^ 51 - 1.

(** The page [CreatePage] makes second. *)
Definition second_page : Page :=
  mkPage 2 0 (PageSize - HeaderSize) 0 (zeros (PageSize - HeaderSize)).

(** The image [SaveMetaDataPage] writes. *)
Definition SaveMetaDataPage_buf (m : DatabaseMeta) : list byte :=
  upd (upd (upd (zeros PageSize) 0 (PutUint64 (NextPageId m)))
           8 (PutUint64 (PageCount m)))
      16 (PutUint64 (LastPageId m)).

Definition meta_typed (m : DatabaseMeta) : Prop :=
  is_uint64 (NextPageId m) /\ is_uint64 (PageCount m) /\
  is_uint64 (LastPageId m).

(* ------------------------------------------------------------------ *)
(** ** The database facade (the [Database] type and its methods) *)

(** [NewDisk]: [opened] is what [os.OpenFile] yields for the path. *)
Definition NewDisk (opened : os_File + error) (filepath : string)
  : option Disk * option error :=
  match opened with
  | inr err => (None, Some err)
  | inl file => (Some (mkDisk filepath file), None)
  end.

(** [pageManager] and [disk] share one [*os.File]; the model keeps the
    two copies of its state equal. *)
Record Database : Type := mkDatabase {
  pageManager : PageManager;
  disk : Disk
}.

Definition with_manager (pm : PageManager) : Database :=
  mkDatabase pm (Disk_ pm).

(** [NewDatabase] reports a failed open and goes on: [NewPageManager]
    then dereferences the nil [*Disk], a panic.  The result of
    [LoadMetaPage] is dropped; the error returned is always nil. *)
Definition NewDatabase (opened : os_File + error) (filePath : string)
  : exec (Database * option error) :=
  let (d, err) := NewDisk opened filePath in
  match d with
  | None => Panic
  | Some d =>
      let pageManager := NewPageManager d in
      let (_, pageManager) := LoadMetaPage pageManager in
      Ret (with_manager pageManager, None)
  end.

Definition Put (fuel : nat) (db : Database) (key value : string)
  : exec (option error * Database) :=
  r <- InsertRecord fuel (pageManager db) key value ;;
  let (err, pm) := r in
  Ret (err, with_manager pm).

Definition Get (fuel : nat) (db : Database) (key : string)
  : exec ((string * option error) * Database) :=
  r <- FindRecord fuel (pageManager db) key ;;
  let (res, pm) := r in
  Ret (res, with_manager pm).


(** A page image nothing in the code writes: one record, whose slot is
    live and points at the last byte of the buffer. *)
Definition corrupt_page : Page :=
  mkPage 1 1 0 0 (upd (zeros (PageSize - HeaderSize)) 0 (PutUint16 4079)).

(* ================================================================== *)
(** * Properties *)

(* ------------------------------------------------------------------ *)
(** ** Bytes and the little-endian codec *)

Lemma Z_of_byte_of_Z (z : Z) : Z_of_byte (byte_of_Z z) = z mod 256.
Proof.
  unfold Z_of_byte, byte_of_Z.
  assert (Hr : 0 <= z mod 256 < 256) by (apply Z.mod_pos_bound; lia).
  destruct (Byte.of_N (Z.to_N (z mod 256))) as [b|] eqn:E.
  - apply Byte.to_of_N in E. rewrite E. apply Z2N.id. lia.
  - apply Byte.of_N_None_iff in E. lia.
Qed.

Lemma testbit_low_byte (v n : Z) :
  0 <= n -> Z.testbit (v mod 256) n = (n <? 8) && Z.testbit v n.
Proof.
  intros Hn. change 256 with (2 ^ 8).
  destruct (Z.ltb_spec n 8).
  - rewrite Z.mod_pow2_bits_low by lia. reflexivity.
  - rewrite Z.mod_pow2_bits_high by lia. reflexivity.
Qed.

Lemma testbit_chunk (v i n : Z) :
  0 <= i -> 0 <= n ->
  Z.testbit (Z.shiftl (Z.shiftr v i mod 256) i) n
  = (i <=? n) && (n <? i + 8) && Z.testbit v n.
Proof.
  intros Hi Hn. rewrite Z.shiftl_spec by lia.
  destruct (Z.leb_spec i n); simpl.
  - rewrite testbit_low_byte by lia.
    rewrite Z.shiftr_spec by lia.
    replace (n - i + i) with n by lia.
    destruct (Z.ltb_spec (n - i) 8), (Z.ltb_spec n (i + 8));
      try lia; reflexivity.
  - apply Z.testbit_neg_r. lia.
Qed.

Lemma testbit_high (v k n : Z) :
  0 <= k -> 0 <= v < 2 ^ k -> k <= n -> Z.testbit v n = false.
Proof.
  intros Hk Hv Hn. rewrite <- (Z.mod_small v (2 ^ k)) by lia.
  apply Z.mod_pow2_bits_high. lia.
Qed.

Ltac codec_bits k :=
  let n := fresh "n" in
  let Hn := fresh "Hn" in
  apply Z.bits_inj'; intros n Hn;
  rewrite ?Z.lor_spec, ?testbit_chunk, ?testbit_low_byte by lia;
  destruct (Z.ltb_spec n k);
  [ repeat match goal with
      | |- context [ ?a <=? ?b ] => destruct (Z.leb_spec a b); try lia
      | |- context [ ?a <? ?b ] => destruct (Z.ltb_spec a b); try lia
      end;
    simpl; rewrite ?orb_false_r; reflexivity
  | rewrite (testbit_high _ k n) by lia;
    repeat match goal with
      | |- context [ ?a <? ?b ] => destruct (Z.ltb_spec a b); try lia
      end;
    rewrite ?andb_false_r; reflexivity ].

Lemma Uint16_PutUint16 (v : Z) : is_uint16 v -> Uint16 (PutUint16 v) = v.
Proof.
  intros Hv. unfold Uint16, PutUint16, at_, is_uint16 in *. simpl nth.
  rewrite !Z_of_byte_of_Z. codec_bits 16.
Qed.

Lemma Uint32_PutUint32 (v : Z) : is_uint32 v -> Uint32 (PutUint32 v) = v.
Proof.
  intros Hv. unfold Uint32, PutUint32, at_, is_uint32 in *. simpl nth.
  rewrite !Z_of_byte_of_Z. codec_bits 32.
Qed.

Lemma Uint64_PutUint64 (v : Z) : is_uint64 v -> Uint64 (PutUint64 v) = v.
Proof.
  intros Hv. unfold Uint64, PutUint64, at_, is_uint64 in *. simpl nth.
  rewrite !Z_of_byte_of_Z. codec_bits 64.
Qed.

Lemma Z_of_byte_nonneg (b : byte) : 0 <= Z_of_byte b.
Proof. unfold Z_of_byte. lia. Qed.

Lemma Uint16_nonneg (b : list byte) : 0 <= Uint16 b.
Proof.
  unfold Uint16, at_. apply Z.lor_nonneg. split.
  - apply Z_of_byte_nonneg.
  - apply Z.shiftl_nonneg, Z_of_byte_nonneg.
Qed.

Lemma lenZ_PutUint16 (v : Z) : lenZ (PutUint16 v) = 2.
Proof. reflexivity. Qed.

Lemma lenZ_list_byte_of_string (s : string) :
  lenZ (list_byte_of_string s) = slen s.
Proof.
  unfold lenZ, slen, list_byte_of_string. f_equal.
  induction s as [|c s IH]; simpl; [reflexivity | now rewrite IH].
Qed.

(* ------------------------------------------------------------------ *)
(** ** Slices of an updated buffer *)

Lemma lenZ_nonneg {A : Type} (l : list A) : 0 <= lenZ l.
Proof. unfold lenZ. lia. Qed.

Lemma lenZ_upd (buf : list byte) (lo : Z) (src : list byte) :
  0 <= lo -> lo + lenZ src <= lenZ buf -> lenZ (upd buf lo src) = lenZ buf.
Proof.
  unfold lenZ, upd. intros H0 H1.
  rewrite !length_app, length_firstn, length_skipn. lia.
Qed.

Lemma byte_at_upd (buf : list byte) (lo : Z) (src : list byte) (j : Z) :
  0 <= lo -> lo + lenZ src <= lenZ buf -> 0 <= j ->
  byte_at (upd buf lo src) j
  = if (lo <=? j) && (j <? lo + lenZ src)
    then byte_at src (j - lo) else byte_at buf j.
Proof.
  unfold lenZ, upd, byte_at. intros H0 H1 Hj.
  assert (Hf : length (firstn (Z.to_nat lo) buf) = Z.to_nat lo)
    by (rewrite length_firstn; lia).
  destruct (Z.leb_spec lo j); simpl.
  - rewrite app_nth2 by lia. rewrite Hf.
    destruct (Z.ltb_spec j (lo + Z.of_nat (length src))).
    + rewrite app_nth1 by lia. f_equal. lia.
    + rewrite app_nth2 by lia. rewrite nth_skipn. f_equal. lia.
  - rewrite app_nth1 by lia. rewrite nth_firstn.
    destruct (Nat.ltb_spec (Z.to_nat j) (Z.to_nat lo)); [reflexivity | lia].
Qed.

Lemma length_sub (buf : list byte) (lo hi : Z) :
  length (sub buf lo hi)
  = Nat.min (Z.to_nat (hi - lo)) (length buf - Z.to_nat lo).
Proof. unfold sub. now rewrite length_firstn, length_skipn. Qed.

Lemma nth_sub (buf : list byte) (lo hi : Z) (j : nat) :
  0 <= lo ->
  nth j (sub buf lo hi) x00
  = if (j <? Z.to_nat (hi - lo))%nat then byte_at buf (lo + Z.of_nat j)
    else x00.
Proof.
  intros H0. unfold sub, byte_at. rewrite nth_firstn, nth_skipn.
  destruct (Nat.ltb_spec j (Z.to_nat (hi - lo))); [f_equal; lia | reflexivity].
Qed.

(** Two buffers of one length that agree on [[lo, hi)] have the same
    slice there. *)
Lemma sub_ext (buf buf' : list byte) (lo hi : Z) :
  0 <= lo -> lenZ buf' = lenZ buf ->
  (forall j, lo <= j < hi -> byte_at buf' j = byte_at buf j) ->
  sub buf' lo hi = sub buf lo hi.
Proof.
  intros H0 Hl Hb. apply nth_ext with (d := x00) (d' := x00).
  - rewrite !length_sub. unfold lenZ in Hl. lia.
  - intros j Hj. rewrite !nth_sub by lia.
    destruct (Nat.ltb_spec j (Z.to_nat (hi - lo))); [| reflexivity].
    apply Hb. lia.
Qed.

Lemma sub_upd_other (buf : list byte) (lo : Z) (src : list byte) (a b : Z) :
  0 <= lo -> lo + lenZ src <= lenZ buf -> 0 <= a ->
  b <= lo \/ lo + lenZ src <= a ->
  sub (upd buf lo src) a b = sub buf a b.
Proof.
  intros H0 H1 Ha Hd. apply sub_ext; [lia | now apply lenZ_upd |].
  intros j Hj. rewrite byte_at_upd by lia.
  destruct (Z.leb_spec lo j), (Z.ltb_spec j (lo + lenZ src));
    simpl; try reflexivity; lia.
Qed.

Lemma sub_upd_same (buf : list byte) (lo : Z) (src : list byte) (hi : Z) :
  0 <= lo -> lo + lenZ src <= lenZ buf -> hi = lo + lenZ src ->
  sub (upd buf lo src) lo hi = src.
Proof.
  intros H0 H1 ->. apply nth_ext with (d := x00) (d' := x00).
  - rewrite length_sub. pose proof (lenZ_upd buf lo src H0 H1) as Hl.
    unfold lenZ in *. lia.
  - intros j Hj. rewrite length_sub in Hj. rewrite nth_sub by lia.
    unfold lenZ in *.
    destruct (Nat.ltb_spec j (Z.to_nat (lo + Z.of_nat (length src) - lo)));
      [| lia].
    rewrite byte_at_upd by (unfold lenZ; lia). unfold lenZ.
    destruct (Z.leb_spec lo (lo + Z.of_nat j)); [| lia].
    destruct (Z.ltb_spec (lo + Z.of_nat j) (lo + Z.of_nat (length src)));
      [| lia].
    simpl. unfold byte_at. f_equal. lia.
Qed.

(** Buffers are equal when they have one length and the same bytes. *)
Lemma buf_ext (b1 b2 : list byte) :
  lenZ b1 = lenZ b2 ->
  (forall j, 0 <= j < lenZ b1 -> byte_at b1 j = byte_at b2 j) ->
  b1 = b2.
Proof.
  unfold lenZ, byte_at. intros Hl Hb.
  apply nth_ext with (d := x00) (d' := x00); [lia |].
  intros n Hn. specialize (Hb (Z.of_nat n)).
  rewrite Nat2Z.id in Hb. apply Hb. lia.
Qed.

Lemma byte_at_app (s1 s2 : list byte) (j : Z) :
  0 <= j ->
  byte_at (s1 ++ s2) j
  = if j <? lenZ s1 then byte_at s1 j else byte_at s2 (j - lenZ s1).
Proof.
  unfold byte_at, lenZ. intros Hj.
  destruct (Z.ltb_spec j (Z.of_nat (length s1))).
  - apply app_nth1. lia.
  - rewrite app_nth2 by lia. f_equal. lia.
Qed.

Lemma lenZ_app (s1 s2 : list byte) : lenZ (s1 ++ s2) = lenZ s1 + lenZ s2.
Proof. unfold lenZ. rewrite length_app. lia. Qed.

(** Two adjacent writes are one write of the concatenation. *)
Lemma upd_upd_app (buf : list byte) (lo : Z) (s1 s2 : list byte) (mid : Z) :
  0 <= lo -> lo + lenZ s1 + lenZ s2 <= lenZ buf -> mid = lo + lenZ s1 ->
  upd (upd buf lo s1) mid s2 = upd buf lo (s1 ++ s2).
Proof.
  intros H0 H1 ->.
  pose proof (lenZ_nonneg s1). pose proof (lenZ_nonneg s2).
  assert (L1 : lenZ (upd buf lo s1) = lenZ buf) by (apply lenZ_upd; lia).
  apply buf_ext.
  - rewrite !lenZ_upd; rewrite ?lenZ_app; lia.
  - intros j Hj. rewrite lenZ_upd in Hj by lia.
    rewrite !byte_at_upd; rewrite ?lenZ_app; try lia.
    destruct (Z.leb_spec (lo + lenZ s1) j), (Z.leb_spec lo j),
      (Z.ltb_spec j (lo + lenZ s1 + lenZ s2)), (Z.ltb_spec j (lo + lenZ s1)),
      (Z.ltb_spec j (lo + (lenZ s1 + lenZ s2)));
      simpl; try lia; try reflexivity;
      rewrite byte_at_app by lia;
      destruct (Z.ltb_spec (j - lo) (lenZ s1)); try lia; try reflexivity.
    f_equal. lia.
Qed.

(* ------------------------------------------------------------------ *)
(** ** What a successful [WriteRecord] does *)

Lemma lenZ_record_bytes (key value : string) :
  lenZ (record_bytes key value) = recordSize key value.
Proof.
  unfold record_bytes, recordSize, KeySize, ValueSize.
  rewrite !lenZ_app, !lenZ_PutUint16, !lenZ_list_byte_of_string. lia.
Qed.

Lemma lenZ_slot_bytes (s : SlotArr) : lenZ (slot_bytes s) = 6.
Proof. reflexivity. Qed.

Lemma recordSize_bounds (key value : string) :
  4 <= recordSize key value.
Proof. unfold recordSize, KeySize, ValueSize, slen. lia. Qed.

Lemma in_bounds_true (buf : list byte) (lo hi : Z) :
  in_bounds buf lo hi = true <-> 0 <= lo /\ lo <= hi /\ hi <= lenZ buf.
Proof. unfold in_bounds. rewrite !andb_true_iff, !Z.leb_le. tauto. Qed.

Lemma bind_Ret {A B : Type} (m : exec A) (k : A -> exec B) (b : B) :
  bind m k = Ret b -> exists a, m = Ret a /\ k a = Ret b.
Proof. destruct m; simpl; intros H; try discriminate. eauto. Qed.

Lemma copy_to_Ret (buf : list byte) (lo hi : Z) (src b : list byte) :
  copy_to buf lo hi src = Ret b ->
  (0 <= lo /\ lo <= hi /\ hi <= lenZ buf) /\ lenZ b = lenZ buf.
Proof.
  unfold copy_to. destruct (in_bounds buf lo hi) eqn:E; [| discriminate].
  intros [= <-]. apply in_bounds_true in E. split; [exact E |].
  apply lenZ_upd; [lia |].
  unfold lenZ in *. rewrite length_firstn. lia.
Qed.

Lemma copy_to_ok (buf : list byte) (lo hi : Z) (src : list byte) :
  0 <= lo -> hi = lo + lenZ src -> hi <= lenZ buf ->
  copy_to buf lo hi src = Ret (upd buf lo src).
Proof.
  intros H0 -> H1. unfold copy_to.
  pose proof (lenZ_nonneg src).
  replace (in_bounds buf lo (lo + lenZ src)) with true
    by (symmetry; apply in_bounds_true; lia).
  rewrite firstn_all2 by (unfold lenZ; lia). reflexivity.
Qed.

Lemma slice_ok (buf : list byte) (lo hi : Z) :
  0 <= lo -> lo <= hi -> hi <= lenZ buf ->
  slice buf lo hi = Ret (sub buf lo hi).
Proof.
  intros. unfold slice.
  replace (in_bounds buf lo hi) with true
    by (symmetry; apply in_bounds_true; lia).
  reflexivity.
Qed.

Lemma get16_ok (buf : list byte) (lo : Z) :
  0 <= lo -> lo + 2 <= lenZ buf ->
  get16 buf lo = Ret (Uint16 (sub buf lo (lo + 2))).
Proof. intros. unfold get16. rewrite slice_ok by lia. reflexivity. Qed.

Lemma wrap16_small (z : Z) : 0 <= z < 2 ^ 16 -> wrap16 z = z.
Proof. intros. unfold wrap16. apply Z.mod_small. lia. Qed.

Lemma wrap32_small (z : Z) : 0 <= z < 2 ^ 32 -> wrap32 z = z.
Proof. intros. unfold wrap32. apply Z.mod_small. lia. Qed.

(** Lengths of buffers built by [upd], up to linear arithmetic. *)
Ltac buf_len :=
  repeat first
    [ rewrite lenZ_PutUint16
    | rewrite lenZ_list_byte_of_string
    | rewrite lenZ_record_bytes
    | rewrite lenZ_slot_bytes
    | rewrite lenZ_app
    | rewrite lenZ_upd by buf_len ];
  try lia.

Lemma WriteRecord_ok (p : Page) (key value : string) :
  slen key <= MaxKeyBytes -> slen value <= MaxValueBytes ->
  recordSize key value + SlotArrSize <= FreeSpace p < 2 ^ 16 ->
  recordSize key value <= dataTop p <= lenZ (Ptr p) ->
  dataTop p < 2 ^ 16 ->
  0 <= Count p < 2 ^ 32 - 1 ->
  Count p * SlotArrSize + 6 <= lenZ (Ptr p) ->
  WriteRecord p key value = Ret (written p key value, None).
Proof.
  intros Hk Hv Hf Hd Hd16 Hc Hs.
  pose proof (recordSize_bounds key value) as Hrs.
  assert (Hrs' : recordSize key value <= 804)
    by (unfold recordSize, KeySize, ValueSize, MaxKeyBytes, MaxValueBytes in *;
        lia).
  assert (Hsk : 0 <= slen key) by (unfold slen; lia).
  assert (Hsv : 0 <= slen value) by (unfold slen; lia).
  unfold WriteRecord. rewrite !lenZ_list_byte_of_string.
  rewrite !Z.gtb_ltb.
  destruct (Z.ltb_spec MaxKeyBytes (slen key)); [lia |].
  destruct (Z.ltb_spec MaxValueBytes (slen value)); [lia |].
  fold (recordSize key value).
  destruct (Z.ltb_spec (FreeSpace p) (recordSize key value + SlotArrSize));
    [lia |].
  set (p0 := if Count p =? 0 then _ else p).
  assert (E0 : Ptr p0 = Ptr p /\ Count p0 = Count p /\
               FreeSpace p0 = FreeSpace p /\ PageId p0 = PageId p /\
               DataStart p0 = dataTop p).
  { unfold p0, dataTop. destruct (Count p =? 0); simpl; auto. }
  destruct E0 as (EP & EC & EF & EI & ED). rewrite ED, EP, EC.
  unfold SlotArrSize, MaxKeyBytes, MaxValueBytes in *.
  rewrite (wrap16_small (recordSize key value)) by lia.
  rewrite (wrap16_small (recordSize key value + 6)) by lia.
  rewrite (wrap16_small (slen key)) by lia.
  rewrite (wrap16_small (slen value)) by lia.
  rewrite (wrap16_small (dataTop p - recordSize key value)) by lia.
  set (nds := dataTop p - recordSize key value).
  assert (Hn : nds + 2 + 2 + slen key + slen value = dataTop p)
    by (unfold nds, recordSize, KeySize, ValueSize; lia).
  unfold put16, SetSlot, set_Ptr; simpl.
  repeat (cbv delta [put16 SlotArrSize]; cbv beta;
          rewrite copy_to_ok by buf_len; cbn [bind]).
  cbn [bind PageId Count FreeSpace Ptr]. rewrite EI, EF.
  rewrite (wrap16_small (FreeSpace p - _)) by lia.
  rewrite wrap32_small by lia.
  unfold written. fold nds. unfold SlotArrSize.
  rewrite EC. do 2 f_equal. f_equal.
  unfold record_bytes, slot_bytes; cbn [offset len flag].
  rewrite (upd_upd_app (Ptr p) nds _ _ (nds + 2)) by buf_len.
  rewrite (upd_upd_app (Ptr p) nds _ _ (nds + 2 + 2)) by buf_len.
  rewrite (upd_upd_app (Ptr p) nds _ _ (nds + 2 + 2 + slen key)) by buf_len.
  rewrite (upd_upd_app _ (Count p * 6) _ _ (Count p * 6 + 2)) by buf_len.
  rewrite (upd_upd_app _ (Count p * 6) _ _ (Count p * 6 + 4)) by buf_len.
  rewrite <- !app_assoc. reflexivity.
Qed.

(** On a page of the Go type, a call that returns [nil] met every bound,
    none of its unsigned subtractions wrapped, and it left [written]. *)
Lemma WriteRecord_inv (p p' : Page) (key value : string) :
  body_typed p ->
  WriteRecord p key value = Ret (p', None) ->
  slen key <= MaxKeyBytes /\ slen value <= MaxValueBytes /\
  recordSize key value + SlotArrSize <= FreeSpace p /\
  recordSize key value <= dataTop p <= PageSize - HeaderSize /\
  Count p * SlotArrSize + 6 <= PageSize - HeaderSize /\
  p' = written p key value.
Proof.
  intros (HC & HF & HD & HL) H.
  assert (Hsk : 0 <= slen key) by (unfold slen; lia).
  assert (Hsv : 0 <= slen value) by (unfold slen; lia).
  assert (HT : 0 <= dataTop p < 2 ^ 16).
  { unfold dataTop, PageSize, HeaderSize, is_uint16 in *.
    destruct (Count p =? 0); lia. }
  pose proof H as H'. unfold WriteRecord in H.
  rewrite !lenZ_list_byte_of_string, !Z.gtb_ltb in H.
  destruct (Z.ltb_spec MaxKeyBytes (slen key)) as [|Hk]; [discriminate |].
  destruct (Z.ltb_spec MaxValueBytes (slen value)) as [|Hv]; [discriminate |].
  fold (recordSize key value) in H.
  destruct (Z.ltb_spec (FreeSpace p) (recordSize key value + SlotArrSize))
    as [|Hfs]; [discriminate |].
  set (p0 := if Count p =? 0 then _ else p) in H.
  assert (E0 : Ptr p0 = Ptr p /\ Count p0 = Count p /\ DataStart p0 = dataTop p).
  { unfold p0, dataTop. destruct (Count p =? 0); simpl; auto. }
  destruct E0 as (EP & EC & ED). rewrite ED, EP, EC in H.
  unfold PageSize, HeaderSize, SlotArrSize, MaxKeyBytes, MaxValueBytes,
    is_uint16, is_uint32 in *.
  assert (Hrs : recordSize key value = 4 + slen key + slen value)
    by (unfold recordSize, KeySize, ValueSize; lia).
  rewrite (wrap16_small (recordSize key value)) in H by lia.
  set (nds := wrap16 (dataTop p - recordSize key value)) in H.
  unfold put16, SetSlot in H.
  apply bind_Ret in H as (b1 & C1 & H).
  apply bind_Ret in H as (b2 & C2 & H).
  apply bind_Ret in H as (b3 & C3 & H).
  apply bind_Ret in H as (b4 & C4 & H).
  apply bind_Ret in H as (q & C5 & _).
  apply bind_Ret in C5 as (c1 & C5 & C6).
  apply bind_Ret in C6 as (c2 & C6 & C7).
  apply bind_Ret in C7 as (c3 & C7 & _).
  cbn [Ptr set_Ptr] in C5.
  apply copy_to_Ret in C1 as (B1 & L1).
  apply copy_to_Ret in C2 as (B2 & L2).
  apply copy_to_Ret in C3 as (B3 & L3).
  apply copy_to_Ret in C4 as (B4 & L4).
  apply copy_to_Ret in C5 as (B5 & L5).
  apply copy_to_Ret in C6 as (B6 & L6).
  apply copy_to_Ret in C7 as (B7 & L7).
  assert (Hnds : nds = dataTop p - recordSize key value).
  { unfold nds, wrap16 in *.
    destruct (Z_lt_le_dec (dataTop p) (recordSize key value)).
    - exfalso.
      assert ((dataTop p - recordSize key value) mod 2 ^ 16
              = dataTop p - recordSize key value + 2 ^ 16).
      { symmetry. apply Z.mod_unique with (q := -1); lia. }
      lia.
    - apply Z.mod_small. lia. }
  assert (HB : recordSize key value <= dataTop p <= 4080) by lia.
  assert (HS : Count p * 6 + 6 <= 4080) by (unfold SlotArrSize in *; lia).
  repeat split; try lia.
  rewrite WriteRecord_ok in H';
    unfold PageSize, HeaderSize, SlotArrSize, MaxKeyBytes, MaxValueBytes;
    try lia.
  now inversion H'.
Qed.

(* ------------------------------------------------------------------ *)
(** ** The layout invariant of a page *)

Lemma GetSlot_ok (p : Page) (i : Z) :
  0 <= i -> i * 6 + 6 <= lenZ (Ptr p) ->
  GetSlot p i = Ret (slot_at (Ptr p) i).
Proof.
  intros H0 H1. unfold GetSlot, SlotArrSize.
  rewrite !get16_ok by lia. cbn [bind]. unfold slot_at.
  replace (i * 6 + 2 + 2) with (i * 6 + 4) by lia.
  replace (i * 6 + 4 + 2) with (i * 6 + 6) by lia.
  reflexivity.
Qed.

(** One iteration of the scan of [ReadRecord] on a slot that is in
    bounds. *)
Lemma ReadRecord_loop_step (p : Page) (kb : list byte) (n : nat) (i : Z) :
  lenZ (Ptr p) = PageSize - HeaderSize ->
  0 <= i -> i * 6 + 6 <= PageSize - HeaderSize ->
  slot_ok (Ptr p) 0 i ->
  ReadRecord_loop p kb (S n) i
  = let s := slot_at (Ptr p) i in
    let off := offset s in
    let ks := klen_at (Ptr p) off in
    let vs := vlen_at (Ptr p) off in
    if negb (flag s =? 0) then ReadRecord_loop p kb n (i + 1)
    else if String.eqb
              (string_of_list_byte (sub (Ptr p) (off + 4) (off + 4 + ks)))
              (string_of_list_byte kb)
         then Ret (string_of_list_byte
                     (sub (Ptr p) (off + 4 + ks) (off + 4 + ks + vs)), true)
         else ReadRecord_loop p kb n (i + 1).
Proof.
  intros HL H0 H1 (Ht & Hr). cbn zeta.
  cbn [ReadRecord_loop]. rewrite GetSlot_ok by lia. cbn [bind].
  destruct (negb (flag (slot_at (Ptr p) i) =? 0)); [reflexivity |].
  set (off := offset (slot_at (Ptr p) i)) in *.
  pose proof (Uint16_nonneg (sub (Ptr p) off (off + 2))) as Hk.
  pose proof (Uint16_nonneg (sub (Ptr p) (off + 2) (off + 4))) as Hv.
  fold (klen_at (Ptr p) off) in Hk. fold (vlen_at (Ptr p) off) in Hv.
  rewrite get16_ok by lia. cbn [bind].
  rewrite get16_ok by lia. cbn [bind].
  fold (klen_at (Ptr p) off).
  replace (off + 2 + 2) with (off + 4) by lia.
  fold (vlen_at (Ptr p) off).
  rewrite slice_ok by lia. cbn [bind].
  rewrite slice_ok by lia. cbn [bind].
  reflexivity.
Qed.

(** The buffer of [written], as the seven stores of [WriteRecord]. *)
Lemma written_Ptr (p : Page) (key value : string) :
  let rs := recordSize key value in
  let nds := dataTop p - rs in
  let c := Count p in
  0 <= nds -> dataTop p <= lenZ (Ptr p) ->
  0 <= c -> c * 6 + 6 <= lenZ (Ptr p) ->
  Ptr (written p key value)
  = upd (upd (upd (upd (upd (upd (upd (Ptr p)
      nds (PutUint16 (slen key)))
      (nds + 2) (PutUint16 (slen value)))
      (nds + 4) (list_byte_of_string key))
      (nds + 4 + slen key) (list_byte_of_string value))
      (c * 6) (PutUint16 nds))
      (c * 6 + 2) (PutUint16 rs))
      (c * 6 + 4) (PutUint16 0).
Proof.
  intros rs nds c H0 H1 H2 H3.
  assert (Hn : nds + 4 + slen key + slen value = dataTop p)
    by (unfold nds, rs, recordSize, KeySize, ValueSize; lia).
  assert (Hsk : 0 <= slen key) by (unfold slen; lia).
  assert (Hsv : 0 <= slen value) by (unfold slen; lia).
  unfold written. cbn [Ptr]. fold rs. fold nds. fold c.
  unfold record_bytes, slot_bytes, SlotArrSize; cbn [offset len flag].
  rewrite (upd_upd_app (Ptr p) nds _ _ (nds + 2)) by buf_len.
  rewrite (upd_upd_app (Ptr p) nds _ _ (nds + 4)) by buf_len.
  rewrite (upd_upd_app (Ptr p) nds _ _ (nds + 4 + slen key)) by buf_len.
  rewrite (upd_upd_app _ (c * 6) _ _ (c * 6 + 2)) by buf_len.
  rewrite (upd_upd_app _ (c * 6) _ _ (c * 6 + 4)) by buf_len.
  rewrite <- !app_assoc. reflexivity.
Qed.

Ltac unfold_consts :=
  unfold PageSize, HeaderSize, SlotArrSize, KeySize, ValueSize,
    MaxKeyBytes, MaxValueBytes, is_uint16, is_uint32, is_uint64 in *.

Lemma inv_arith (p : Page) (key value : string) :
  page_inv p -> fits p key value ->
  let rs := recordSize key value in
  let nds := dataTop p - rs in
  0 <= Count p /\ Count p * 6 + 6 <= nds /\ nds + rs = dataTop p /\
  dataTop p <= 4080 /\ lenZ (Ptr p) = 4080 /\
  rs = 4 + slen key + slen value /\ 0 <= slen key <= 400 /\
  0 <= slen value <= 400 /\ 0 <= FreeSpace p < 2 ^ 16.
Proof.
  intros ((HC & HF & HD & HL) & HE & HT & _) (Hk & Hv & Hs).
  unfold recordSize in *. unfold_consts. unfold slen in *. cbn zeta. lia.
Qed.

Lemma WriteRecord_fits (p : Page) (key value : string) :
  page_inv p -> fits p key value ->
  WriteRecord p key value = Ret (written p key value, None).
Proof.
  intros HI HF. pose proof (inv_arith p key value HI HF) as A.
  cbn zeta in A. destruct HF as (Hk & Hv & Hs).
  apply WriteRecord_ok; unfold_consts; lia.
Qed.

Lemma WriteRecord_inv_fits (p p' : Page) (key value : string) :
  body_typed p -> WriteRecord p key value = Ret (p', None) ->
  fits p key value /\ p' = written p key value.
Proof.
  intros HT H. apply WriteRecord_inv in H; [| exact HT].
  unfold fits. tauto.
Qed.

(** What [written] leaves in the buffer: the old slots and the old
    records are untouched, ... *)
Lemma written_agree (p : Page) (key value : string) :
  page_inv p -> fits p key value ->
  agree p (written p key value) (Count p) (dataTop p).
Proof.
  intros HI HF. pose proof (inv_arith p key value HI HF) as A.
  cbn zeta in A. unfold agree, written. cbn [Ptr]. unfold SlotArrSize.
  split; [buf_len |].
  intros j Hj.
  rewrite !byte_at_upd by buf_len.
  rewrite lenZ_slot_bytes, lenZ_record_bytes.
  destruct (Z.leb_spec (Count p * 6) j),
    (Z.ltb_spec j (Count p * 6 + 6)),
    (Z.leb_spec (dataTop p - recordSize key value) j),
    (Z.ltb_spec j (dataTop p - recordSize key value + recordSize key value));
    cbn [andb]; try reflexivity; lia.
Qed.

(** ... the new slot entry is in place, ... *)
Lemma written_slot (p : Page) (key value : string) :
  page_inv p -> fits p key value ->
  slot_at (Ptr (written p key value)) (Count p)
  = mkSlotArr (dataTop p - recordSize key value) (recordSize key value) 0.
Proof.
  intros HI HF. pose proof (inv_arith p key value HI HF) as A.
  cbn zeta in A. rewrite written_Ptr by lia.
  unfold slot_at.
  rewrite sub_upd_other by buf_len. rewrite sub_upd_other by buf_len.
  rewrite sub_upd_same by buf_len.
  rewrite sub_upd_other by buf_len. rewrite sub_upd_same by buf_len.
  rewrite sub_upd_same by buf_len.
  rewrite !Uint16_PutUint16 by (unfold is_uint16; lia).
  reflexivity.
Qed.

(** ... and the new record is stored at the new [DataStart]. *)
Lemma written_record (p : Page) (key value : string) :
  page_inv p -> fits p key value ->
  let q := written p key value in
  let off := dataTop p - recordSize key value in
  klen_at (Ptr q) off = slen key /\
  vlen_at (Ptr q) off = slen value /\
  sub (Ptr q) (off + 4) (off + 4 + slen key) = list_byte_of_string key /\
  sub (Ptr q) (off + 4 + slen key) (off + 4 + slen key + slen value)
  = list_byte_of_string value.
Proof.
  intros HI HF. pose proof (inv_arith p key value HI HF) as A.
  cbn zeta in A. cbn zeta. rewrite written_Ptr by lia.
  unfold klen_at, vlen_at.
  repeat split.
  - do 6 (rewrite sub_upd_other by buf_len).
    rewrite sub_upd_same by buf_len.
    apply Uint16_PutUint16. unfold is_uint16. lia.
  - do 5 (rewrite sub_upd_other by buf_len).
    rewrite sub_upd_same by buf_len.
    apply Uint16_PutUint16. unfold is_uint16. lia.
  - do 4 (rewrite sub_upd_other by buf_len).
    rewrite sub_upd_same by buf_len. reflexivity.
  - do 3 (rewrite sub_upd_other by buf_len).
    rewrite sub_upd_same by buf_len. reflexivity.
Qed.

(* ------------------------------------------------------------------ *)
(** ** Scanning a page whose old slots and records are unchanged *)

Lemma agree_sub (p q : Page) (c top a b : Z) :
  agree p q c top -> 0 <= a -> b <= c * 6 \/ top <= a ->
  sub (Ptr q) a b = sub (Ptr p) a b.
Proof.
  intros (HL & HB) Ha Hr. apply sub_ext; [lia | exact HL |].
  intros j Hj. apply HB. lia.
Qed.

Lemma agree_slot (p q : Page) (c top i : Z) :
  agree p q c top -> 0 <= i < c ->
  slot_at (Ptr q) i = slot_at (Ptr p) i.
Proof.
  intros HA Hi. unfold slot_at.
  rewrite !(agree_sub p q c top) by (auto; lia). reflexivity.
Qed.

Lemma agree_slot_ok (p q : Page) (c top i : Z) :
  agree p q c top -> 0 <= top -> 0 <= i < c ->
  slot_ok (Ptr p) top i -> slot_ok (Ptr q) top i.
Proof.
  intros HA Ht Hi (H1 & H2). unfold slot_ok in *.
  rewrite (agree_slot p q c top) by auto.
  set (off := offset (slot_at (Ptr p) i)) in *.
  unfold klen_at, vlen_at in *.
  rewrite !(agree_sub p q c top) by (auto; lia). auto.
Qed.

Lemma slot_ok_weaken (buf : list byte) (top top' i : Z) :
  top' <= top -> slot_ok buf top i -> slot_ok buf top' i.
Proof. unfold slot_ok. intros H (H1 & H2). split; [lia | exact H2]. Qed.

Lemma scan_agree (p q : Page) (c top : Z) (kb : list byte) :
  lenZ (Ptr p) = PageSize - HeaderSize ->
  agree p q c top -> 0 <= top -> c * 6 <= PageSize - HeaderSize ->
  (forall i, 0 <= i < c -> slot_ok (Ptr p) top i) ->
  forall (n : nat) (i : Z),
    0 <= i -> i + Z.of_nat n <= c ->
    ReadRecord_loop q kb n i = ReadRecord_loop p kb n i.
Proof.
  intros HL HA Ht Hc Hs n. induction n as [|n IH]; intros i H0 H1.
  - reflexivity.
  - assert (Hi : 0 <= i < c) by lia.
    pose proof (Hs i Hi) as Hok.
    pose proof (agree_slot_ok p q c top i HA Ht Hi Hok) as Hok'.
    assert (HLq : lenZ (Ptr q) = PageSize - HeaderSize)
      by (destruct HA; lia).
    assert (Hb : i * 6 + 6 <= PageSize - HeaderSize) by lia.
    rewrite (ReadRecord_loop_step p kb n i HL H0 Hb
               (slot_ok_weaken _ _ _ _ Ht Hok)).
    rewrite (ReadRecord_loop_step q kb n i HLq H0 Hb
               (slot_ok_weaken _ _ _ _ Ht Hok')).
    cbn zeta.
    rewrite (agree_slot p q c top) by auto.
    destruct Hok as (Hok1 & Hok2).
    set (off := offset (slot_at (Ptr p) i)) in *.
    unfold klen_at, vlen_at in *.
    pose proof (Uint16_nonneg (sub (Ptr p) off (off + 2))).
    pose proof (Uint16_nonneg (sub (Ptr p) (off + 2) (off + 4))).
    rewrite !(agree_sub p q c top) by (auto; lia).
    rewrite IH by lia. reflexivity.
Qed.

(** The scan goes through the slots in order: a hit among the first [n]
    is the answer of any longer scan, and [n] misses leave the rest. *)
Lemma ReadRecord_loop_hit (p : Page) (kb : list byte) (m : nat) (v : string) :
  forall (n : nat) (i : Z),
    ReadRecord_loop p kb n i = Ret (v, true) ->
    ReadRecord_loop p kb (n + m) i = Ret (v, true).
Proof.
  induction n as [|n IH]; intros i H; [discriminate |].
  cbn [ReadRecord_loop Nat.add] in *.
  destruct (GetSlot p i) as [s| |]; cbn [bind] in *; try discriminate.
  destruct (negb (flag s =? 0)); [now apply IH |].
  destruct (get16 (Ptr p) (offset s)) as [ks| |]; cbn [bind] in *;
    try discriminate.
  destruct (get16 (Ptr p) (offset s + 2)) as [vs| |]; cbn [bind] in *;
    try discriminate.
  destruct (slice (Ptr p) _ _) as [rk| |]; cbn [bind] in *; try discriminate.
  destruct (slice (Ptr p) _ _) as [rv| |]; cbn [bind] in *; try discriminate.
  destruct (String.eqb _ _); [exact H | now apply IH].
Qed.

Lemma ReadRecord_loop_miss (p : Page) (kb : list byte) (m : nat) (v : string) :
  forall (n : nat) (i : Z),
    ReadRecord_loop p kb n i = Ret (v, false) ->
    ReadRecord_loop p kb (n + m) i
    = ReadRecord_loop p kb m (i + Z.of_nat n).
Proof.
  induction n as [|n IH]; intros i H.
  - cbn [Nat.add]. f_equal. cbn. lia.
  - replace (i + Z.of_nat (S n)) with (i + 1 + Z.of_nat n) by lia.
    cbn [ReadRecord_loop Nat.add] in *.
    destruct (GetSlot p i) as [s| |]; cbn [bind] in *; try discriminate.
    destruct (negb (flag s =? 0)); [now apply IH |].
    destruct (get16 (Ptr p) (offset s)) as [ks| |]; cbn [bind] in *;
      try discriminate.
    destruct (get16 (Ptr p) (offset s + 2)) as [vs| |]; cbn [bind] in *;
      try discriminate.
    destruct (slice (Ptr p) _ _) as [rk| |]; cbn [bind] in *;
      try discriminate.
    destruct (slice (Ptr p) _ _) as [rv| |]; cbn [bind] in *;
      try discriminate.
    destruct (String.eqb _ _); [discriminate | now apply IH].
Qed.

(* ------------------------------------------------------------------ *)
(** ** The invariant is established and preserved *)

Lemma dataTop_written (p : Page) (key value : string) :
  0 <= Count p ->
  dataTop (written p key value) = dataTop p - recordSize key value.
Proof.
  intros H. unfold dataTop at 1, written. cbn [Count DataStart].
  destruct (Z.eqb_spec (Count p + 1) 0); [lia | reflexivity].
Qed.

Lemma written_slot_ok (p : Page) (key value : string) :
  page_inv p -> fits p key value ->
  slot_ok (Ptr (written p key value))
          (dataTop p - recordSize key value) (Count p).
Proof.
  intros HI HF. pose proof (inv_arith p key value HI HF) as A.
  cbn zeta in A. unfold slot_ok.
  rewrite written_slot by assumption. cbn [offset].
  destruct (written_record p key value HI HF) as (-> & -> & _).
  unfold_consts. lia.
Qed.

Lemma written_inv (p : Page) (key value : string) :
  page_inv p -> fits p key value -> page_inv (written p key value).
Proof.
  intros HI HF. pose proof (inv_arith p key value HI HF) as A.
  cbn zeta in A.
  pose proof (written_agree p key value HI HF) as HA.
  pose proof (written_slot_ok p key value HI HF) as HS.
  destruct HI as (HT & HE & HD & Hsl).
  unfold page_inv. rewrite dataTop_written by lia.
  split; [| split; [| split]].
  - destruct HA as (HL & _).
    unfold body_typed, written in *; cbn [Count FreeSpace DataStart Ptr] in *.
    unfold_consts. lia.
  - unfold written; cbn [FreeSpace Count]. unfold_consts. lia.
  - unfold_consts. lia.
  - intros i Hi. unfold written in Hi; cbn [Count] in Hi.
    destruct (Z.eq_dec i (Count p)) as [-> | Hne]; [exact HS |].
    apply slot_ok_weaken with (top := dataTop p); [lia |].
    apply (agree_slot_ok p _ (Count p) (dataTop p));
      [exact HA | lia | lia | apply Hsl; lia].
Qed.

Lemma CreatePage_inv (pm : PageManager) : page_inv (fst (CreatePage pm)).
Proof.
  unfold page_inv, body_typed, CreatePage, dataTop, zeros, lenZ.
  cbn [fst Count FreeSpace DataStart Ptr]. rewrite repeat_length.
  unfold_consts. cbn [Z.eqb]. repeat split; try lia.
Qed.

(* ------------------------------------------------------------------ *)
(** ** Reading after a write *)

Lemma Count_to_nat_succ (c : Z) :
  0 <= c -> Z.to_nat (c + 1) = (Z.to_nat c + 1)%nat.
Proof. lia. Qed.

(** The scan of the old slots is the same before and after the write. *)
Lemma ReadRecord_written_old (p : Page) (key value k : string) :
  page_inv p -> fits p key value ->
  ReadRecord_loop (written p key value) (list_byte_of_string k)
                  (Z.to_nat (Count p)) 0
  = ReadRecord p k.
Proof.
  intros HI HF. pose proof (inv_arith p key value HI HF) as A.
  cbn zeta in A.
  pose proof (written_agree p key value HI HF) as HA.
  destruct HI as (HT & HE & HD & Hsl).
  unfold ReadRecord.
  apply scan_agree with (c := Count p) (top := dataTop p);
    auto; unfold_consts; lia.
Qed.

(** A key the page already holds keeps its first match. *)
Lemma ReadRecord_written_hit (p : Page) (key value k v : string) :
  page_inv p -> fits p key value ->
  ReadRecord p k = Ret (v, true) ->
  ReadRecord (written p key value) k = Ret (v, true).
Proof.
  intros HI HF H. pose proof (inv_arith p key value HI HF) as A.
  cbn zeta in A.
  unfold ReadRecord at 1. unfold written at 2. cbn [Count].
  rewrite Count_to_nat_succ by lia.
  apply ReadRecord_loop_hit.
  rewrite ReadRecord_written_old by assumption. exact H.
Qed.

(** The scan of the new slot alone. *)
Lemma ReadRecord_written_last (p : Page) (key value : string) (kb : list byte) :
  page_inv p -> fits p key value ->
  ReadRecord_loop (written p key value) kb 1 (Count p)
  = if String.eqb key (string_of_list_byte kb)
    then Ret (value, true) else Ret ("", false).
Proof.
  intros HI HF. pose proof (inv_arith p key value HI HF) as A.
  cbn zeta in A.
  pose proof (written_inv p key value HI HF) as (HT' & _).
  pose proof (written_slot_ok p key value HI HF) as HS.
  rewrite ReadRecord_loop_step;
    [ | destruct HT' as (_ & _ & _ & HL); exact HL | lia
      | unfold_consts; lia
      | apply slot_ok_weaken with (2 := HS); lia ].
  cbn zeta. rewrite written_slot by assumption. cbn [offset flag].
  destruct (written_record p key value HI HF) as (-> & -> & -> & ->).
  cbn [Z.eqb negb]. rewrite !string_of_list_byte_of_string.
  destruct (String.eqb key (string_of_list_byte kb)); reflexivity.
Qed.

(** A key the page does not hold yet is found with the value written. *)
Lemma ReadRecord_written_miss (p : Page) (key value s : string) :
  page_inv p -> fits p key value ->
  ReadRecord p key = Ret (s, false) ->
  ReadRecord (written p key value) key = Ret (value, true).
Proof.
  intros HI HF H. pose proof (inv_arith p key value HI HF) as A.
  cbn zeta in A.
  unfold ReadRecord at 1. unfold written at 2. cbn [Count].
  rewrite Count_to_nat_succ by lia.
  rewrite ReadRecord_loop_miss with (v := s)
    by (rewrite ReadRecord_written_old by assumption; exact H).
  replace (0 + Z.of_nat (Z.to_nat (Count p))) with (Count p) by lia.
  rewrite ReadRecord_written_last by assumption.
  rewrite string_of_list_byte_of_string, String.eqb_refl. reflexivity.
Qed.

(* ------------------------------------------------------------------ *)
(** ** Pages built by successive writes *)

Lemma page_inv_body (p : Page) : page_inv p -> body_typed p.
Proof. now intros (H & _). Qed.

Lemma WriteRecord_inv_page (p p' : Page) (key value : string) :
  page_inv p -> WriteRecord p key value = Ret (p', None) ->
  fits p key value /\ p' = written p key value /\ page_inv p'.
Proof.
  intros HI H.
  destruct (WriteRecord_inv_fits p p' key value (page_inv_body p HI) H)
    as (HF & ->).
  auto using written_inv.
Qed.

Lemma writeAll_inv (kvs : list (string * string)) :
  forall p q, page_inv p -> writeAll p kvs = Some q -> page_inv q.
Proof.
  induction kvs as [|(k, v) rest IH]; intros p q HI H; cbn in H.
  - now injection H as <-.
  - destruct (WriteRecord p k v) as [(p', [e|])| |] eqn:E; try discriminate.
    apply (IH p'); [| exact H].
    now destruct (WriteRecord_inv_page p p' k v HI E) as (_ & _ & ?).
Qed.

Lemma writeAll_PageId (kvs : list (string * string)) :
  forall p q, page_inv p -> writeAll p kvs = Some q -> PageId q = PageId p.
Proof.
  induction kvs as [|(k, v) rest IH]; intros p q HI H; cbn in H.
  - now injection H as <-.
  - destruct (WriteRecord p k v) as [(p', [e|])| |] eqn:E; try discriminate.
    destruct (WriteRecord_inv_page p p' k v HI E) as (_ & -> & HI').
    now rewrite (IH _ q HI' H).
Qed.

Lemma fresh_writeAll_inv (pm : PageManager) (kvs : list (string * string))
  (p : Page) :
  writeAll (fst (CreatePage pm)) kvs = Some p -> page_inv p.
Proof. apply writeAll_inv, CreatePage_inv. Qed.

(* ------------------------------------------------------------------ *)
(** ** The bytes a write leaves alone *)

(** The bytes a successful write leaves alone, from arithmetic facts
    only: everything outside the new slot entry and the new record. *)
Lemma written_frame (p : Page) (key value : string) (j : Z) :
  let rs := recordSize key value in
  let nds := dataTop p - rs in
  let c := Count p in
  0 <= c -> c * 6 + 6 <= nds -> dataTop p <= lenZ (Ptr p) ->
  0 <= j -> ~ (c * 6 <= j < c * 6 + 6) -> ~ (nds <= j < dataTop p) ->
  byte_at (Ptr (written p key value)) j = byte_at (Ptr p) j.
Proof.
  intros rs nds c Hc Hs Ht Hj Hn1 Hn2.
  pose proof (recordSize_bounds key value) as Hr. fold rs in Hr.
  unfold written. cbn [Ptr]. fold rs. fold nds. fold c. unfold SlotArrSize.
  assert (Hl : lenZ (record_bytes key value) = rs)
    by apply lenZ_record_bytes.
  rewrite !byte_at_upd; rewrite ?lenZ_upd; rewrite ?Hl, ?lenZ_slot_bytes;
    try lia.
  destruct (Z.leb_spec (c * 6) j), (Z.ltb_spec j (c * 6 + 6)),
    (Z.leb_spec nds j), (Z.ltb_spec j (nds + rs));
    cbn [andb]; try reflexivity; unfold nds in *; lia.
Qed.

Lemma lenZ_written (p : Page) (key value : string) :
  0 <= Count p -> Count p * 6 + 6 <= dataTop p - recordSize key value ->
  dataTop p <= lenZ (Ptr p) ->
  lenZ (Ptr (written p key value)) = lenZ (Ptr p).
Proof.
  intros Hc Hs Ht. pose proof (recordSize_bounds key value) as Hr.
  unfold written. cbn [Ptr]. unfold SlotArrSize.
  rewrite !lenZ_upd; rewrite ?lenZ_upd;
    rewrite ?lenZ_record_bytes, ?lenZ_slot_bytes; lia.
Qed.

(* ------------------------------------------------------------------ *)
(** ** The page image *)

Lemma upd_all (buf src : list byte) :
  lenZ src = lenZ buf -> upd buf 0 src = src.
Proof.
  unfold lenZ, upd. intros H. cbn [Z.to_nat firstn app Nat.add].
  rewrite skipn_all2 by lia. apply app_nil_r.
Qed.

Lemma lenZ_zeros (n : Z) : 0 <= n -> lenZ (zeros n) = n.
Proof. intros H. unfold lenZ, zeros. rewrite repeat_length. lia. Qed.

(** The image is the 16-byte header followed by the buffer. *)
Lemma writePageToDisk_buf_eq (page : Page) :
  lenZ (Ptr page) = PageSize - HeaderSize ->
  writePageToDisk_buf page
  = PutUint64 (PageId page) ++ PutUint32 (Count page)
      ++ PutUint16 (FreeSpace page) ++ PutUint16 (DataStart page)
      ++ Ptr page.
Proof.
  intros HL. unfold writePageToDisk_buf.
  rewrite firstn_all2 by (unfold lenZ in HL; unfold_consts; lia).
  unfold_consts.
  assert (L64 : forall v, lenZ (PutUint64 v) = 8) by reflexivity.
  assert (L32 : forall v, lenZ (PutUint32 v) = 4) by reflexivity.
  assert (LZ : lenZ (zeros 4096) = 4096) by reflexivity.
  rewrite (upd_upd_app _ 0 _ _ 8) by (rewrite ?L64, ?L32, ?LZ; lia).
  rewrite (upd_upd_app _ 0 _ _ 12)
    by (rewrite ?lenZ_app, ?L64, ?L32, ?LZ, ?lenZ_PutUint16; lia).
  rewrite (upd_upd_app _ 0 _ _ 14)
    by (rewrite ?lenZ_app, ?L64, ?L32, ?LZ, ?lenZ_PutUint16; lia).
  rewrite (upd_upd_app _ 0 _ _ 16)
    by (rewrite ?lenZ_app, ?L64, ?L32, ?LZ, ?lenZ_PutUint16; lia).
  rewrite upd_all
    by (rewrite ?lenZ_app, ?L64, ?L32, ?LZ, ?lenZ_PutUint16; lia).
  rewrite <- !app_assoc. reflexivity.
Qed.

Lemma lenZ_writePageToDisk_buf (page : Page) :
  lenZ (Ptr page) = PageSize - HeaderSize ->
  lenZ (writePageToDisk_buf page) = PageSize.
Proof.
  intros HL. rewrite writePageToDisk_buf_eq by exact HL.
  rewrite !lenZ_app, HL. reflexivity.
Qed.

Lemma LoadPage_parse_image (page : Page) :
  page_typed page -> LoadPage_parse (writePageToDisk_buf page) = page.
Proof.
  intros (HI & HC & HF & HD & HL).
  unfold LoadPage_parse.
  rewrite (lenZ_writePageToDisk_buf page HL).
  rewrite writePageToDisk_buf_eq by exact HL.
  change (sub (PutUint64 (PageId page) ++ ?r) 0 8)
    with (PutUint64 (PageId page)).
  change (sub (PutUint64 (PageId page) ++ PutUint32 (Count page) ++ ?r) 8 12)
    with (PutUint32 (Count page)).
  change (sub (PutUint64 (PageId page) ++ PutUint32 (Count page)
                ++ PutUint16 (FreeSpace page) ++ ?r) 12 14)
    with (PutUint16 (FreeSpace page)).
  change (sub (PutUint64 (PageId page) ++ PutUint32 (Count page)
                ++ PutUint16 (FreeSpace page)
                ++ PutUint16 (DataStart page) ++ ?r) 14 16)
    with (PutUint16 (DataStart page)).
  change (sub (PutUint64 (PageId page) ++ PutUint32 (Count page)
                ++ PutUint16 (FreeSpace page)
                ++ PutUint16 (DataStart page) ++ Ptr page)
              HeaderSize PageSize)
    with (firstn (Z.to_nat (PageSize - HeaderSize)) (Ptr page)).
  rewrite Uint64_PutUint64, Uint32_PutUint32, !Uint16_PutUint16 by assumption.
  rewrite firstn_firstn, Nat.min_id.
  rewrite firstn_all2 by (unfold lenZ in HL; unfold_consts; lia).
  rewrite upd_all by (rewrite lenZ_zeros; unfold_consts; lia).
  destruct page; reflexivity.
Qed.

(* ------------------------------------------------------------------ *)
(** ** A store without faults that holds one data page *)

Lemma upd_app_end (a b b' : list byte) (off : Z) :
  off = lenZ a -> lenZ b <= lenZ b' -> upd (a ++ b) off b' = a ++ b'.
Proof.
  unfold lenZ, upd. intros -> H. rewrite Nat2Z.id.
  rewrite firstn_app, firstn_all, Nat.sub_diag. cbn [firstn].
  rewrite app_nil_r, skipn_all2 by (rewrite length_app; lia).
  now rewrite app_nil_r.
Qed.

Lemma zeros_nonpos (n : Z) : n <= 0 -> zeros n = [].
Proof.
  intros H. unfold zeros. replace (Z.to_nat n) with 0%nat by lia.
  reflexivity.
Qed.

Lemma WriteAt_nofault (d b : list byte) (off : Z) :
  0 <= off ->
  WriteAt (mkFile d []) b off
  = (None, mkFile (upd (d ++ zeros (off - lenZ d)) off b) []).
Proof.
  intros H. unfold WriteAt.
  destruct (Z.ltb_spec off 0); [lia | reflexivity].
Qed.

Lemma ReadAt_nofault (d : list byte) (n off : Z) :
  0 <= off -> n <= lenZ (skipn (Z.to_nat off) d) ->
  ReadAt (mkFile d []) n off
  = ((firstn (Z.to_nat n) (skipn (Z.to_nat off) d), None), mkFile d []).
Proof.
  intros H Hn. unfold ReadAt.
  destruct (Z.ltb_spec off 0); [lia |]. cbn [next_fault faults data].
  destruct (Z.leb_spec n (lenZ (skipn (Z.to_nat off) d))); [reflexivity | lia].
Qed.

Lemma pageOffset_1 : pageOffset 1 = PageSize.
Proof. reflexivity. Qed.

Lemma LoadPage_holds (path : string) (pm : PageManager) (q : Page) :
  holds path pm q -> page_typed q -> LoadPage pm 1 = (inl q, pm).
Proof.
  intros (m & Hm & ->) HT. unfold store_with.
  assert (HL : lenZ (Ptr q) = PageSize - HeaderSize)
    by (now destruct HT as (_ & _ & _ & _ & ?)).
  pose proof (lenZ_writePageToDisk_buf q HL) as HI.
  assert (Hs : skipn (Z.to_nat PageSize) (m ++ writePageToDisk_buf q)
               = writePageToDisk_buf q).
  { rewrite skipn_app, skipn_all2 by (unfold lenZ in Hm; lia).
    replace (Z.to_nat PageSize - length m)%nat with 0%nat
      by (unfold lenZ in Hm; lia).
    reflexivity. }
  unfold LoadPage, Disk_Read. rewrite pageOffset_1.
  cbn [Disk_ File FilePath].
  rewrite ReadAt_nofault by (rewrite ?Hs; unfold PageSize in *; lia).
  rewrite Hs, firstn_all2 by (unfold lenZ in HI; lia).
  rewrite LoadPage_parse_image by exact HT. reflexivity.
Qed.


Lemma holds_meta (path : string) (pm : PageManager) (q : Page) :
  holds path pm q -> LastPageId (MetaData pm) = 1.
Proof. now intros (m & _ & ->). Qed.



Lemma first_page_inv : page_inv first_page.
Proof. apply (CreatePage_inv pm0). Qed.

Lemma findPageWithSpace_empty (path : string) (rs : Z) (fuel : nat) :
  findPageWithSpace (S (S fuel)) (new_store path) rs
  = Ret (inr (errors_New "no page with enough space"), new_store path).
Proof. reflexivity. Qed.

Lemma CreatePage_new (path : string) :
  CreatePage (new_store path)
  = (first_page, mkPM [] (mkDisk path (mkFile [] [])) (mkMeta 2 1 1)).
Proof. reflexivity. Qed.

Lemma writePageToDisk_new (path : string) :
  writePageToDisk (mkPM [] (mkDisk path (mkFile [] [])) (mkMeta 2 1 1))
                  first_page
  = (None, store_with path (zeros PageSize ++ writePageToDisk_buf first_page)).
Proof. vm_compute. reflexivity. Qed.

Lemma SaveMetaDataPage_new (path : string) :
  SaveMetaDataPage
    (store_with path (zeros PageSize ++ writePageToDisk_buf first_page))
  = (None, store_with path (meta_image ++ writePageToDisk_buf first_page)).
Proof. vm_compute. reflexivity. Qed.



(* ================================================================== *)
(** * The claims *)

(** C1 (the code departs from the claim). On an empty store where the
    write of the metadata page fails, [InsertRecord] goes on and returns
    nil: the search finds no page, page 1 is created and persisted,
    [SaveMetaDataPage] returns the I/O error, the record is written and
    persisted, and the caller sees success while page 0 still holds no
    metadata ([LoadMetaPage] reads back zeros). *)
Theorem C1_metadata_write_failure_ignored :
  findPageWithSpace 2 c1_start (recordSize "k" "v")
  = Ret (inr (errors_New "no page with enough space"), c1_searched) /\
  CreatePage c1_searched = (first_page, c1_created) /\
  writePageToDisk c1_created first_page = (None, c1_persisted) /\
  SaveMetaDataPage c1_persisted = (Some io_fault, c1_meta_failed) /\
  InsertRecord 2 c1_start "k" "v" = Ret (None, c1_end) /\
  MetaData c1_end = mkMeta 2 1 1 /\
  sub (data (File (Disk_ c1_end))) 0 24 = zeros 24 /\
  fst (LoadMetaPage c1_end) = None /\
  MetaData (snd (LoadMetaPage c1_end)) = mkMeta 0 0 0.
Proof.
  repeat match goal with |- _ /\ _ => split end; vm_compute; reflexivity.
Qed.

(** C2 (the code departs from the claim). On a new store, after five
    inserts of 400-byte keys and values and one of [("a","hello")], page 1
    has 14 free bytes.  For [("b","world")], 10 bytes, [HasSpace] accepts
    the page, [WriteRecord] refuses it for want of the 6 bytes of the
    slot, and [InsertRecord] returns "not enough space" to the caller; no
    other page is tried and none is created. *)
Theorem C2_not_enough_space_surfaces :
  InsertRecords 2 (new_store "test.db") (firstn 6 c2_inserts)
  = Ret ([None; None; None; None; None; None], c2_before) /\
  LoadPage c2_before 1 = (inl c2_page, c2_before) /\
  FreeSpace c2_page = 14 /\
  slen "b" <= MaxKeyBytes /\ slen "world" <= MaxValueBytes /\
  HasSpace c2_page (recordSize "b" "world") = true /\
  InsertRecord 2 c2_before "b" "world"
  = Ret (Some (errors_New "not enough space"), c2_before) /\
  MetaData c2_before = mkMeta 2 1 1.
Proof.
  repeat match goal with |- _ /\ _ => split end;
    vm_compute; first [reflexivity | discriminate].
Qed.

(** C3. Starting from a freshly created empty page, after every
    [WriteRecord] call that returns nil the equation
    [FreeSpace = DataStart - Count * SlotArrSize] holds, and the unsigned
    subtraction on [FreeSpace] did not wrap: the new value is the old one
    minus [recordSize + SlotArrSize] as integers, and it is not negative. *)
Theorem C3_free_space_equation (pm : PageManager)
  (kvs : list (string * string)) (p : Page) (key value : string) (p' : Page) :
  writeAll (fst (CreatePage pm)) kvs = Some p ->
  WriteRecord p key value = Ret (p', None) ->
  FreeSpace p' = DataStart p' - Count p' * SlotArrSize /\
  FreeSpace p' = FreeSpace p - (recordSize key value + SlotArrSize) /\
  0 <= FreeSpace p'.
Proof.
  intros Hp Hw. apply fresh_writeAll_inv in Hp.
  destruct (WriteRecord_inv_page p p' key value Hp Hw) as (HF & -> & HI).
  pose proof (inv_arith p key value Hp HF) as A. cbn zeta in A.
  destruct HI as ((_ & HFS & _) & HE & _).
  rewrite dataTop_written in HE by lia.
  unfold written in *. cbn [FreeSpace DataStart Count] in *.
  unfold_consts. lia.
Qed.

Lemma C3_free_space_equation_witness :
  FreeSpace page_ab = DataStart page_ab - Count page_ab * SlotArrSize /\
  FreeSpace page_ab = FreeSpace page_a - (recordSize "b" "world" + SlotArrSize) /\
  0 <= FreeSpace page_ab.
Proof.
  apply (C3_free_space_equation pm0 [("a", "hello")] page_a "b" "world"
           page_ab); vm_compute; reflexivity.
Defined.

(** C4, as the claim states it, fails on a page that already holds the
    key: after [("a","x")], writing [("a","y")] succeeds and reading ["a"]
    still returns ["x"]. *)
Lemma C4_counterexample :
  writeAll page0 [("a", "x")] = Some page_ax /\
  1 <= slen "a" <= 400 /\ 1 <= slen "y" <= 400 /\
  WriteRecord page_ax "a" "y" = Ret (page_axy, None) /\
  ReadRecord page_axy "a" = Ret ("x", true) /\
  ReadRecord page_axy "a" <> Ret ("y", true).
Proof.
  repeat split; try (vm_compute; reflexivity); try (vm_compute; discriminate).
Qed.

(** C4, amended. On a page built from a fresh page by successful writes
    that does not hold the key yet ([ReadRecord] reports a miss), for a key
    and a value of 1 to 400 bytes, a successful [WriteRecord] followed by
    [ReadRecord] of the key returns the value written, found. *)
Theorem C4_write_then_read (pm : PageManager) (kvs : list (string * string))
  (p : Page) (key value s : string) (p' : Page) :
  writeAll (fst (CreatePage pm)) kvs = Some p ->
  1 <= slen key <= MaxKeyBytes -> 1 <= slen value <= MaxValueBytes ->
  ReadRecord p key = Ret (s, false) ->
  WriteRecord p key value = Ret (p', None) ->
  ReadRecord p' key = Ret (value, true).
Proof.
  intros Hp _ _ Hm Hw. apply fresh_writeAll_inv in Hp.
  destruct (WriteRecord_inv_page p p' key value Hp Hw) as (HF & -> & _).
  now apply ReadRecord_written_miss with (s := s).
Qed.

Lemma C4_write_then_read_witness :
  ReadRecord page_ab "b" = Ret ("world", true).
Proof.
  apply (C4_write_then_read pm0 [("a", "hello")] page_a "b" "world" ""
           page_ab); vm_compute; try reflexivity; split; discriminate.
Defined.

(** C5. For every page built from a freshly created page by successful
    [WriteRecord] calls, the image [writePageToDisk] encodes has 4096
    bytes, the buffer after the 16-byte header, and decoding it as
    [LoadPage] does gives back the same [PageId], [Count], [FreeSpace],
    [DataStart] and buffer. *)
Theorem C5_page_round_trip (pm : PageManager) (kvs : list (string * string))
  (p : Page) :
  is_uint64 (NextPageId (MetaData pm)) ->
  writeAll (fst (CreatePage pm)) kvs = Some p ->
  lenZ (writePageToDisk_buf p) = PageSize /\
  sub (writePageToDisk_buf p) HeaderSize PageSize = Ptr p /\
  LoadPage_parse (writePageToDisk_buf p) = p.
Proof.
  intros Hid Hp.
  pose proof (writeAll_PageId kvs _ p (CreatePage_inv pm) Hp) as HP.
  apply fresh_writeAll_inv in Hp. destruct Hp as (HT & _).
  assert (HL : lenZ (Ptr p) = PageSize - HeaderSize)
    by (now destruct HT as (_ & _ & _ & ?)).
  split; [| split].
  - now apply lenZ_writePageToDisk_buf.
  - rewrite writePageToDisk_buf_eq by exact HL.
    change (sub (PutUint64 (PageId p) ++ PutUint32 (Count p)
                  ++ PutUint16 (FreeSpace p)
                  ++ PutUint16 (DataStart p) ++ Ptr p)
                HeaderSize PageSize)
      with (firstn (Z.to_nat (PageSize - HeaderSize)) (Ptr p)).
    apply firstn_all2. unfold lenZ in HL. lia.
  - apply LoadPage_parse_image. split; [| exact HT].
    rewrite HP. exact Hid.
Qed.

Lemma C5_page_round_trip_witness :
  lenZ (writePageToDisk_buf page_ab) = PageSize /\
  sub (writePageToDisk_buf page_ab) HeaderSize PageSize = Ptr page_ab /\
  LoadPage_parse (writePageToDisk_buf page_ab) = page_ab.
Proof.
  apply (C5_page_round_trip pm0 [("a", "hello"); ("b", "world")] page_ab).
  - unfold is_uint64. vm_compute. split; [discriminate | reflexivity].
  - vm_compute. reflexivity.
Defined.

(** C6. On every page, a key or a value longer than 400 bytes makes
    [WriteRecord] return the matching error (the key is checked first) and
    leave the page as it was: same [Count], [FreeSpace], [DataStart] and
    buffer. *)
Theorem C6_oversize_rejected (p : Page) (key value : string) :
  MaxKeyBytes < slen key \/ MaxValueBytes < slen value ->
  WriteRecord p key value
  = Ret (p, Some (if MaxKeyBytes <? slen key
                  then errors_New "key size exceeds maximum allowed"
                  else errors_New "value size exceeds maximum allowed")).
Proof.
  intros H. unfold WriteRecord.
  rewrite !lenZ_list_byte_of_string, !Z.gtb_ltb.
  destruct (Z.ltb_spec MaxKeyBytes (slen key)); [reflexivity |].
  destruct (Z.ltb_spec MaxValueBytes (slen value)); [reflexivity | lia].
Qed.

Lemma C6_oversize_rejected_witness :
  WriteRecord page_a "k" (letters 401)
  = Ret (page_a, Some (errors_New "value size exceeds maximum allowed")).
Proof.
  apply (C6_oversize_rejected page_a "k" (letters 401)).
  right. vm_compute. reflexivity.
Defined.




(** C8. On a fresh empty page, after [WriteRecord("a","hello")] and
    [WriteRecord("b","world")]: [Count] is 2; slot 0 lies above slot 1,
    the second record ending where the first begins; [ReadRecord("a")]
    returns [("hello", true)]; [ReadRecord("c")] finds nothing. *)
Theorem C8_two_inserts (pm : PageManager) :
  exists p1 p2 s0 s1,
    WriteRecord (fst (CreatePage pm)) "a" "hello" = Ret (p1, None) /\
    WriteRecord p1 "b" "world" = Ret (p2, None) /\
    Count p2 = 2 /\
    GetSlot p2 0 = Ret s0 /\ GetSlot p2 1 = Ret s1 /\
    offset s0 > offset s1 /\
    offset s0 = PageSize - HeaderSize - len s0 /\
    offset s1 = offset s0 - len s1 /\
    offset s0 = DataStart p1 /\ offset s1 = DataStart p2 /\
    ReadRecord p2 "a" = Ret ("hello", true) /\
    ReadRecord p2 "c" = Ret ("", false).
Proof.
  set (p := fst (CreatePage pm)).
  exists (written p "a" "hello"),
         (written (written p "a" "hello") "b" "world"),
         (mkSlotArr 4070 10 0), (mkSlotArr 4060 10 0).
  repeat split; vm_compute; reflexivity.
Qed.

(** C9, as the claim states it, fails on an empty page that satisfies the
    equation with [DataStart] below the top of the buffer: the call resets
    [DataStart] to 4080 first and writes the record at 4074, a position
    above the old [DataStart] and outside [[newDataStart, old DataStart)]. *)
Lemma C9_counterexample :
  page_typed page_low /\
  FreeSpace page_low = DataStart page_low - Count page_low * SlotArrSize /\
  WriteRecord page_low "a" "b" = Ret (written page_low "a" "b", None) /\
  DataStart page_low <= 4074 < PageSize - HeaderSize /\
  ~ (DataStart (written page_low "a" "b") <= 4074 < DataStart page_low) /\
  ~ (Count page_low * 6 <= 4074 < Count page_low * 6 + 6) /\
  byte_at (Ptr (written page_low "a" "b")) 4074
  <> byte_at (Ptr page_low) 4074.
Proof.
  unfold page_typed, body_typed, is_uint64, is_uint32, is_uint16.
  repeat split; try (vm_compute; reflexivity);
    try (vm_compute; intros; discriminate).
  all: vm_compute; intros (_ & H); discriminate.
Qed.

(** C9, amended. On every page of the Go type that satisfies
    [FreeSpace = DataStart - Count * 6], a successful [WriteRecord] leaves
    every old slot entry and every byte from the boundary upward as they
    were, and changes no byte outside the new slot's 6-byte window and
    [[newDataStart, boundary)], where the boundary is the one the call
    works with, [dataTop]: the old [DataStart] if the page held a record,
    the top of the buffer if it held none. *)
Theorem C9_write_frame (p : Page) (key value : string) (p' : Page) :
  body_typed p ->
  FreeSpace p = DataStart p - Count p * SlotArrSize ->
  WriteRecord p key value = Ret (p', None) ->
  let c := Count p in
  let top := dataTop p in
  let nds := DataStart p' in
  nds = top - recordSize key value /\ c * SlotArrSize + 6 <= nds /\
  (forall i, 0 <= i < c -> GetSlot p' i = GetSlot p i) /\
  (forall j, top <= j < PageSize - HeaderSize ->
             byte_at (Ptr p') j = byte_at (Ptr p) j) /\
  (forall j, 0 <= j < PageSize - HeaderSize ->
             ~ (c * SlotArrSize <= j < c * SlotArrSize + 6) ->
             ~ (nds <= j < top) ->
             byte_at (Ptr p') j = byte_at (Ptr p) j).
Proof.
  intros HT HE Hw. cbn zeta.
  destruct (WriteRecord_inv p p' key value HT Hw)
    as (Hk & Hv & Hs & Hd & Hc & ->).
  destruct HT as (HC & HF & HD & HL).
  assert (Hrs : 4 <= recordSize key value <= 804)
    by (unfold recordSize; unfold_consts; unfold slen in *; lia).
  assert (Hsl : Count p * 6 + 6 <= dataTop p - recordSize key value).
  { unfold dataTop in *. unfold_consts.
    destruct (Z.eqb_spec (Count p) 0); lia. }
  assert (H0 : 0 <= Count p) by (unfold_consts; lia).
  assert (Hlen : lenZ (Ptr (written p key value)) = lenZ (Ptr p))
    by (apply lenZ_written; unfold_consts; lia).
  assert (Hfr : forall j, 0 <= j ->
            ~ (Count p * 6 <= j < Count p * 6 + 6) ->
            ~ (dataTop p - recordSize key value <= j < dataTop p) ->
            byte_at (Ptr (written p key value)) j = byte_at (Ptr p) j).
  { intros j ? ? ?. apply written_frame; unfold_consts; lia. }
  change (DataStart (written p key value))
    with (dataTop p - recordSize key value).
  unfold_consts.
  split; [reflexivity |]. split; [lia |]. split; [| split].
  - intros i Hi. rewrite !GetSlot_ok by lia. f_equal.
    apply (agree_slot p _ (Count p) (dataTop p)); [| lia].
    split; [exact Hlen |]. intros j Hj. apply Hfr; lia.
  - intros j Hj. apply Hfr; lia.
  - intros j Hj Hn1 Hn2. apply Hfr; lia.
Qed.

Lemma C9_write_frame_witness :
  let c := Count page_a in
  let top := dataTop page_a in
  let nds := DataStart page_ab in
  nds = top - recordSize "b" "world" /\ c * SlotArrSize + 6 <= nds /\
  (forall i, 0 <= i < c -> GetSlot page_ab i = GetSlot page_a i) /\
  (forall j, top <= j < PageSize - HeaderSize ->
             byte_at (Ptr page_ab) j = byte_at (Ptr page_a) j) /\
  (forall j, 0 <= j < PageSize - HeaderSize ->
             ~ (c * SlotArrSize <= j < c * SlotArrSize + 6) ->
             ~ (nds <= j < top) ->
             byte_at (Ptr page_ab) j = byte_at (Ptr page_a) j).
Proof.
  apply (C9_write_frame page_a "b" "world" page_ab).
  - unfold body_typed, is_uint32, is_uint16.
    repeat split; try (vm_compute; reflexivity);
      vm_compute; intros; discriminate.
  - vm_compute. reflexivity.
  - vm_compute. reflexivity.
Defined.

(** C10, as the claim states it, fails on a page that already holds a
    record with the empty key: the write of [("", "y")] succeeds and
    [ReadRecord("")] still returns the older ["x"]. *)
Lemma C10_counterexample :
  writeAll page0 [("", "x")] = Some page_e /\
  recordSize "" "y" + SlotArrSize <= FreeSpace page_e /\
  WriteRecord page_e "" "y" = Ret (page_ey, None) /\
  ReadRecord page_ey "" = Ret ("x", true) /\
  ReadRecord page_ey "" <> Ret ("y", true).
Proof.
  repeat split; try (vm_compute; reflexivity); vm_compute; discriminate.
Qed.

(** C10, amended. [WriteRecord] has no lower bound on lengths: on a page
    built from a fresh page by successful writes, with room for the record
    and its slot, a write with an empty key or an empty value succeeds and
    stores a record whose header holds the two lengths (0 for an empty
    one); if the page did not hold the key before, [ReadRecord] of the key
    (the empty string, for an empty key) then returns the value, found. *)
Theorem C10_empty_key_or_value (pm : PageManager)
  (kvs : list (string * string)) (p : Page) (key value : string) :
  writeAll (fst (CreatePage pm)) kvs = Some p ->
  key = "" \/ value = "" ->
  slen key <= MaxKeyBytes -> slen value <= MaxValueBytes ->
  recordSize key value + SlotArrSize <= FreeSpace p ->
  exists p',
    WriteRecord p key value = Ret (p', None) /\
    klen_at (Ptr p') (DataStart p') = slen key /\
    vlen_at (Ptr p') (DataStart p') = slen value /\
    (forall s, ReadRecord p key = Ret (s, false) ->
               ReadRecord p' key = Ret (value, true)).
Proof.
  intros Hp _ Hk Hv Hs. apply fresh_writeAll_inv in Hp.
  assert (HF : fits p key value) by (unfold fits; auto).
  exists (written p key value).
  destruct (written_record p key value Hp HF) as (Hkl & Hvl & _).
  split; [now apply WriteRecord_fits |].
  split; [exact Hkl |]. split; [exact Hvl |].
  intros s Hm. now apply ReadRecord_written_miss with (s := s).
Qed.

Lemma C10_empty_key_or_value_witness :
  exists p',
    WriteRecord page_a "" "" = Ret (p', None) /\
    klen_at (Ptr p') (DataStart p') = slen "" /\
    vlen_at (Ptr p') (DataStart p') = slen "" /\
    (forall s, ReadRecord page_a "" = Ret (s, false) ->
               ReadRecord p' "" = Ret ("", true)).
Proof.
  apply (C10_empty_key_or_value pm0 [("a", "hello")] page_a "" "").
  - vm_compute. reflexivity.
  - left. reflexivity.
  - vm_compute. discriminate.
  - vm_compute. discriminate.
  - vm_compute. discriminate.
Defined.

(* ================================================================== *)
(** * Further properties *)

(* ------------------------------------------------------------------ *)
(** ** Slot entries *)

Lemma SetSlot_ok (p : Page) (i : Z) (s : SlotArr) :
  0 <= i -> i * 6 + 6 <= lenZ (Ptr p) ->
  SetSlot p i s = Ret (set_Ptr p (upd (Ptr p) (i * 6) (slot_bytes s))).
Proof.
  intros H0 H1. unfold SetSlot, put16, SlotArrSize.
  repeat (rewrite copy_to_ok by buf_len; cbn [bind]).
  unfold slot_bytes.
  rewrite (upd_upd_app _ (i * 6) _ _ (i * 6 + 2)) by buf_len.
  rewrite (upd_upd_app _ (i * 6) _ _ (i * 6 + 4)) by buf_len.
  rewrite <- !app_assoc. reflexivity.
Qed.

Lemma slot_at_upd_same (buf : list byte) (i : Z) (s : SlotArr) :
  0 <= i -> i * 6 + 6 <= lenZ buf ->
  is_uint16 (offset s) -> is_uint16 (len s) -> is_uint16 (flag s) ->
  slot_at (upd buf (i * 6) (slot_bytes s)) i = s.
Proof.
  intros H0 H1 Ho Hl Hf. unfold slot_bytes.
  rewrite <- (upd_upd_app buf (i * 6) (PutUint16 (offset s)) _ (i * 6 + 2))
    by buf_len.
  rewrite <- (upd_upd_app _ (i * 6 + 2) (PutUint16 (len s)) _ (i * 6 + 4))
    by buf_len.
  unfold slot_at.
  rewrite sub_upd_other by buf_len. rewrite sub_upd_other by buf_len.
  rewrite sub_upd_same by buf_len.
  rewrite sub_upd_other by buf_len. rewrite sub_upd_same by buf_len.
  rewrite sub_upd_same by buf_len.
  rewrite !Uint16_PutUint16 by assumption.
  destruct s; reflexivity.
Qed.

Lemma get16_Panic (buf : list byte) (lo : Z) :
  lo < 0 \/ lenZ buf < lo + 2 -> get16 buf lo = Panic.
Proof.
  intros H. unfold get16, slice.
  destruct (in_bounds buf lo (lo + 2)) eqn:E; [| reflexivity].
  apply in_bounds_true in E. lia.
Qed.


(** X1. [SetSlot] then [GetSlot] at an index inside the buffer returns
    the entry stored; [SetSlot] leaves the header fields, every other slot
    and every byte outside the entry's 6-byte window as they were. *)
Theorem X1_slot_round_trip (p : Page) (i : Z) (s : SlotArr) :
  lenZ (Ptr p) = PageSize - HeaderSize ->
  0 <= i < 680 ->
  is_uint16 (offset s) -> is_uint16 (len s) -> is_uint16 (flag s) ->
  exists p',
    SetSlot p i s = Ret p' /\
    GetSlot p' i = Ret s /\
    (PageId p', Count p', FreeSpace p', DataStart p')
    = (PageId p, Count p, FreeSpace p, DataStart p) /\
    (forall j, 0 <= j < 680 -> j <> i -> GetSlot p' j = GetSlot p j) /\
    (forall j, 0 <= j -> ~ (i * 6 <= j < i * 6 + 6) ->
               byte_at (Ptr p') j = byte_at (Ptr p) j).
Proof.
  intros HL Hi Ho Hl Hf. unfold_consts.
  exists (set_Ptr p (upd (Ptr p) (i * 6) (slot_bytes s))).
  assert (HL' : lenZ (upd (Ptr p) (i * 6) (slot_bytes s)) = lenZ (Ptr p))
    by buf_len.
  assert (Hfr : forall j, 0 <= j -> ~ (i * 6 <= j < i * 6 + 6) ->
            byte_at (upd (Ptr p) (i * 6) (slot_bytes s)) j
            = byte_at (Ptr p) j).
  { intros j Hj Hn. rewrite byte_at_upd by buf_len.
    rewrite lenZ_slot_bytes.
    destruct (Z.leb_spec (i * 6) j), (Z.ltb_spec j (i * 6 + 6));
      cbn [andb]; try reflexivity; lia. }
  split; [apply SetSlot_ok; lia |].
  split.
  { rewrite GetSlot_ok by (cbn [Ptr set_Ptr]; lia). cbn [Ptr set_Ptr].
    f_equal. apply slot_at_upd_same; auto; lia. }
  split; [reflexivity |]. split.
  - intros j Hj Hne.
    rewrite !GetSlot_ok by (cbn [Ptr set_Ptr]; lia). cbn [Ptr set_Ptr].
    f_equal. unfold slot_at.
    rewrite !(sub_ext (Ptr p) (upd (Ptr p) (i * 6) (slot_bytes s)));
      try lia; try reflexivity; intros k Hk; apply Hfr; lia.
  - exact Hfr.
Qed.

Lemma X1_slot_round_trip_witness :
  exists p',
    SetSlot page_a 3 (mkSlotArr 4000 10 1) = Ret p' /\
    GetSlot p' 3 = Ret (mkSlotArr 4000 10 1) /\
    (PageId p', Count p', FreeSpace p', DataStart p')
    = (PageId page_a, Count page_a, FreeSpace page_a, DataStart page_a) /\
    (forall j, 0 <= j < 680 -> j <> 3 -> GetSlot p' j = GetSlot page_a j) /\
    (forall j, 0 <= j -> ~ (3 * 6 <= j < 3 * 6 + 6) ->
               byte_at (Ptr p') j = byte_at (Ptr page_a) j).
Proof.
  apply (X1_slot_round_trip page_a 3 (mkSlotArr 4000 10 1));
    unfold is_uint16; cbn [offset len flag]; try lia.
  vm_compute. reflexivity.
Defined.



(* ------------------------------------------------------------------ *)
(** ** Every outcome of a write, and what a read returns *)

Lemma WriteRecord_no_space (p : Page) (key value : string) :
  slen key <= MaxKeyBytes -> slen value <= MaxValueBytes ->
  FreeSpace p < recordSize key value + SlotArrSize ->
  WriteRecord p key value = Ret (p, Some (errors_New "not enough space")).
Proof.
  intros Hk Hv Hs. unfold WriteRecord.
  rewrite !lenZ_list_byte_of_string, !Z.gtb_ltb.
  destruct (Z.ltb_spec MaxKeyBytes (slen key)); [lia |].
  destruct (Z.ltb_spec MaxValueBytes (slen value)); [lia |].
  fold (recordSize key value).
  destruct (Z.ltb_spec (FreeSpace p) (recordSize key value + SlotArrSize));
    [reflexivity | lia].
Qed.

Lemma WriteRecord_oversize (p : Page) (key value : string) :
  MaxKeyBytes < slen key \/ MaxValueBytes < slen value ->
  exists e, WriteRecord p key value = Ret (p, Some e).
Proof.
  intros H. unfold WriteRecord.
  rewrite !lenZ_list_byte_of_string, !Z.gtb_ltb.
  destruct (Z.ltb_spec MaxKeyBytes (slen key)); [eauto |].
  destruct (Z.ltb_spec MaxValueBytes (slen value)); [eauto | lia].
Qed.

(** The four outcomes of [WriteRecord] on a page that satisfies the
    invariant. *)
Lemma WriteRecord_cases (p : Page) (key value : string) :
  page_inv p ->
  WriteRecord p key value
  = if MaxKeyBytes <? slen key
    then Ret (p, Some (errors_New "key size exceeds maximum allowed"))
    else if MaxValueBytes <? slen value
    then Ret (p, Some (errors_New "value size exceeds maximum allowed"))
    else if FreeSpace p <? recordSize key value + SlotArrSize
    then Ret (p, Some (errors_New "not enough space"))
    else Ret (written p key value, None).
Proof.
  intros HI.
  destruct (Z.ltb_spec MaxKeyBytes (slen key)) as [Hk | Hk].
  { unfold WriteRecord. rewrite !lenZ_list_byte_of_string, !Z.gtb_ltb.
    destruct (Z.ltb_spec MaxKeyBytes (slen key)); [reflexivity | lia]. }
  destruct (Z.ltb_spec MaxValueBytes (slen value)) as [Hv | Hv].
  { unfold WriteRecord. rewrite !lenZ_list_byte_of_string, !Z.gtb_ltb.
    destruct (Z.ltb_spec MaxKeyBytes (slen key)); [lia |].
    destruct (Z.ltb_spec MaxValueBytes (slen value)); [reflexivity | lia]. }
  destruct (Z.ltb_spec (FreeSpace p) (recordSize key value + SlotArrSize)).
  - now apply WriteRecord_no_space.
  - apply WriteRecord_fits; [exact HI |]. unfold fits. auto.
Qed.

(** X3. On a page built from a fresh page by successful writes,
    [WriteRecord] never panics and has exactly four outcomes, tested in
    this order: the key error, the value error, "not enough space" when
    [FreeSpace] is below the record size plus 6, each leaving the page
    unchanged; otherwise success. *)
Theorem X3_write_outcomes (pm : PageManager) (kvs : list (string * string))
  (p : Page) (key value : string) :
  writeAll (fst (CreatePage pm)) kvs = Some p ->
  WriteRecord p key value
  = if MaxKeyBytes <? slen key
    then Ret (p, Some (errors_New "key size exceeds maximum allowed"))
    else if MaxValueBytes <? slen value
    then Ret (p, Some (errors_New "value size exceeds maximum allowed"))
    else if FreeSpace p <? recordSize key value + SlotArrSize
    then Ret (p, Some (errors_New "not enough space"))
    else Ret (written p key value, None).
Proof. intros Hp. apply WriteRecord_cases. eapply fresh_writeAll_inv, Hp. Qed.

Lemma X3_write_outcomes_witness :
  WriteRecord page_a "b" "world"
  = if MaxKeyBytes <? slen "b"
    then Ret (page_a, Some (errors_New "key size exceeds maximum allowed"))
    else if MaxValueBytes <? slen "world"
    then Ret (page_a, Some (errors_New "value size exceeds maximum allowed"))
    else if FreeSpace page_a <? recordSize "b" "world" + SlotArrSize
    then Ret (page_a, Some (errors_New "not enough space"))
    else Ret (written page_a "b" "world", None).
Proof.
  apply (X3_write_outcomes pm0 [("a", "hello")] page_a "b" "world").
  vm_compute. reflexivity.
Defined.

Lemma writeAll_app (l1 l2 : list (string * string)) :
  forall p,
    writeAll p (l1 ++ l2)
    = match writeAll p l1 with
      | Some q => writeAll q l2
      | None => None
      end.
Proof.
  induction l1 as [|(k, v) l1 IH]; intros p; cbn; [reflexivity |].
  destruct (WriteRecord p k v) as [(p', [e|])| |]; auto.
Qed.

Lemma first_value_app (key k v : string) (l : list (string * string)) :
  first_value key (l ++ [(k, v)])
  = match first_value key l with
    | Some x => Some x
    | None => if String.eqb k key then Some v else None
    end.
Proof.
  induction l as [|(k', v') l IH]; cbn; [reflexivity |].
  destruct (String.eqb k' key); auto.
Qed.

(** A miss on the page before a write: the read after it depends on the
    new record alone. *)
Lemma ReadRecord_written_miss_any (p : Page) (key value k s : string) :
  page_inv p -> fits p key value ->
  ReadRecord p k = Ret (s, false) ->
  ReadRecord (written p key value) k
  = if String.eqb key k then Ret (value, true) else Ret ("", false).
Proof.
  intros HI HF H. pose proof (inv_arith p key value HI HF) as A.
  cbn zeta in A.
  unfold ReadRecord at 1. unfold written at 2. cbn [Count].
  rewrite Count_to_nat_succ by lia.
  rewrite ReadRecord_loop_miss with (v := s)
    by (rewrite ReadRecord_written_old by assumption; exact H).
  replace (0 + Z.of_nat (Z.to_nat (Count p))) with (Count p) by lia.
  rewrite ReadRecord_written_last by assumption.
  now rewrite string_of_list_byte_of_string.
Qed.

Lemma ReadRecord_writeAll (kvs : list (string * string)) :
  forall (p0 p : Page) (key : string),
    page_inv p0 -> Count p0 = 0 ->
    writeAll p0 kvs = Some p ->
    ReadRecord p key
    = match first_value key kvs with
      | Some v => Ret (v, true)
      | None => Ret ("", false)
      end.
Proof.
  induction kvs as [|(k, v) kvs IH] using rev_ind; intros p0 p key HI HC H.
  - cbn in H. injection H as <-. unfold ReadRecord. now rewrite HC.
  - rewrite writeAll_app in H.
    destruct (writeAll p0 kvs) as [q|] eqn:Eq; [| discriminate].
    cbn in H.
    destruct (WriteRecord q k v) as [(p', [e|])| |] eqn:Ew; try discriminate.
    injection H as <-.
    pose proof (writeAll_inv kvs p0 q HI Eq) as HIq.
    destruct (WriteRecord_inv_page q p' k v HIq Ew) as (HF & -> & _).
    rewrite first_value_app.
    specialize (IH p0 q key HI HC Eq).
    destruct (first_value key kvs) as [x|].
    + now apply ReadRecord_written_hit.
    + rewrite ReadRecord_written_miss_any with (s := "") by assumption.
      now destruct (String.eqb k key).
Qed.

(** X4. On a page built from a fresh page by successful writes of the
    pairs [kvs], in that order, [ReadRecord] never panics and returns the
    value of the first pair with the key, found, or not found when no
    pair has the key. *)
Theorem X4_read_returns_first_written (pm : PageManager)
  (kvs : list (string * string)) (p : Page) (key : string) :
  writeAll (fst (CreatePage pm)) kvs = Some p ->
  ReadRecord p key
  = match first_value key kvs with
    | Some v => Ret (v, true)
    | None => Ret ("", false)
    end.
Proof.
  intros H. apply (ReadRecord_writeAll kvs (fst (CreatePage pm)));
    [apply CreatePage_inv | reflexivity | exact H].
Qed.

Lemma X4_read_returns_first_written_witness :
  ReadRecord page_axy "a"
  = match first_value "a" [("a", "x"); ("a", "y")] with
    | Some v => Ret (v, true)
    | None => Ret ("", false)
    end.
Proof.
  apply (X4_read_returns_first_written pm0 [("a", "x"); ("a", "y")]
           page_axy "a").
  vm_compute. reflexivity.
Defined.

Lemma writeAll_accounting (kvs : list (string * string)) :
  forall p q,
    page_inv p -> writeAll p kvs = Some q ->
    Count q = Count p + lenZ kvs /\
    dataTop q = dataTop p - records_size kvs /\
    FreeSpace q = FreeSpace p - used_size kvs.
Proof.
  unfold used_size.
  induction kvs as [|(k, v) kvs IH]; intros p q HI H; cbn in H.
  - injection H as <-. cbn. lia.
  - destruct (WriteRecord p k v) as [(p', [e|])| |] eqn:E; try discriminate.
    destruct (WriteRecord_inv_page p p' k v HI E) as (HF & -> & HI').
    pose proof (inv_arith p k v HI HF) as A. cbn zeta in A.
    destruct (IH _ q HI' H) as (H1 & H2 & H3).
    rewrite dataTop_written in H2 by lia.
    unfold written in H1, H3. cbn [Count FreeSpace] in H1, H3.
    cbn [records_size]. unfold lenZ in *. cbn [length].
    unfold_consts. lia.
Qed.

(** X5. Space accounting: after successful writes of the pairs [kvs] on a
    fresh page, [Count] is their number, [FreeSpace] is 4080 minus the
    record sizes and 6 bytes of slot each, the record region starts at
    4080 minus the record sizes, the slot array ends at or below it (the
    two never overlap), and the page holds at most 408 records. *)
Theorem X5_space_accounting (pm : PageManager) (kvs : list (string * string))
  (p : Page) :
  writeAll (fst (CreatePage pm)) kvs = Some p ->
  Count p = lenZ kvs /\
  FreeSpace p = PageSize - HeaderSize - used_size kvs /\
  dataTop p = PageSize - HeaderSize - records_size kvs /\
  Count p * SlotArrSize <= dataTop p /\
  lenZ kvs <= 408.
Proof.
  intros H.
  pose proof (fresh_writeAll_inv pm kvs p H) as ((_ & HF & _) & HE & _).
  destruct (writeAll_accounting kvs _ p (CreatePage_inv pm) H)
    as (H1 & H2 & H3).
  cbn [CreatePage fst Count FreeSpace] in H1, H3.
  change (dataTop (fst (CreatePage pm))) with (PageSize - HeaderSize) in H2.
  assert (Hr : 4 * lenZ kvs <= records_size kvs).
  { clear. induction kvs as [|(k, v) kvs IH]; cbn [records_size].
    - cbn. lia.
    - pose proof (recordSize_bounds k v). unfold lenZ in *. cbn [length].
      lia. }
  unfold used_size in *. unfold_consts. repeat split; lia.
Qed.

Lemma X5_space_accounting_witness :
  Count page_ab = lenZ [("a", "hello"); ("b", "world")] /\
  FreeSpace page_ab
  = PageSize - HeaderSize - used_size [("a", "hello"); ("b", "world")] /\
  dataTop page_ab
  = PageSize - HeaderSize - records_size [("a", "hello"); ("b", "world")] /\
  Count page_ab * SlotArrSize <= dataTop page_ab /\
  lenZ [("a", "hello"); ("b", "world")] <= 408.
Proof.
  apply (X5_space_accounting pm0 [("a", "hello"); ("b", "world")] page_ab).
  vm_compute. reflexivity.
Defined.

(** X6. A slot whose flag is not 0 is skipped by the scan: on a page built
    by successful writes that does not hold the key, after a successful
    write of the key [ReadRecord] finds it, and once [SetSlot] has set the
    flag of its slot to a nonzero value [ReadRecord] reports not found. *)
Theorem X6_flagged_slot_is_skipped (pm : PageManager)
  (kvs : list (string * string)) (p : Page) (key value : string) (f : Z) :
  writeAll (fst (CreatePage pm)) kvs = Some p ->
  first_value key kvs = None ->
  slen key <= MaxKeyBytes -> slen value <= MaxValueBytes ->
  recordSize key value + SlotArrSize <= FreeSpace p ->
  is_uint16 f -> f <> 0 ->
  let q := written p key value in
  exists q',
    WriteRecord p key value = Ret (q, None) /\
    ReadRecord q key = Ret (value, true) /\
    SetSlot q (Count p) (mkSlotArr (DataStart q) (recordSize key value) f)
    = Ret q' /\
    ReadRecord q' key = Ret ("", false).
Proof.
  intros Hp Hfv Hk Hv Hs Hf Hf0 q.
  pose proof (ReadRecord_writeAll kvs _ p key (CreatePage_inv pm) eq_refl Hp)
    as HR.
  rewrite Hfv in HR.
  apply fresh_writeAll_inv in Hp.
  assert (HF : fits p key value) by (unfold fits; auto).
  pose proof (inv_arith p key value Hp HF) as A. cbn zeta in A.
  pose proof (written_inv p key value Hp HF) as HIq. fold q in HIq.
  pose proof (written_record p key value Hp HF) as (Hkl & Hvl & _).
  cbn zeta in Hkl, Hvl. fold q in Hkl, Hvl.
  assert (HLq : lenZ (Ptr q) = 4080)
    by (destruct HIq as ((_ & _ & _ & HL) & _); exact HL).
  assert (HTq : dataTop q = dataTop p - recordSize key value)
    by (apply dataTop_written; lia).
  assert (HDq : DataStart q = dataTop p - recordSize key value)
    by reflexivity.
  assert (HCq : Count q = Count p + 1) by reflexivity.
  set (s := mkSlotArr (DataStart q) (recordSize key value) f).
  set (q' := set_Ptr q (upd (Ptr q) (Count p * 6) (slot_bytes s))).
  assert (HAG : agree q q' (Count p) (dataTop q)).
  { split; [unfold q'; cbn [Ptr set_Ptr]; buf_len |].
    intros j Hj. unfold q'. cbn [Ptr set_Ptr].
    rewrite byte_at_upd by buf_len. rewrite lenZ_slot_bytes.
    destruct (Z.leb_spec (Count p * 6) j), (Z.ltb_spec j (Count p * 6 + 6));
      cbn [andb]; try reflexivity; lia. }
  assert (HS : slot_at (Ptr q') (Count p) = s).
  { unfold q'. cbn [Ptr set_Ptr]. apply slot_at_upd_same; try lia;
      unfold s, is_uint16 in *; cbn [offset len flag]; lia. }
  exists q'. split; [now apply WriteRecord_fits |].
  split; [now apply ReadRecord_written_miss with (s := "") |].
  split; [apply SetSlot_ok; lia |].
  unfold ReadRecord. change (Count q') with (Count p + 1).
  rewrite Count_to_nat_succ by lia.
  rewrite ReadRecord_loop_miss with (v := "").
  - replace (0 + Z.of_nat (Z.to_nat (Count p))) with (Count p) by lia.
    rewrite ReadRecord_loop_step.
    + cbn zeta. rewrite HS. unfold s at 1. cbn [flag].
      destruct (Z.eqb_spec f 0); [contradiction | reflexivity].
    + destruct HAG as (HL' & _). unfold_consts. lia.
    + lia.
    + unfold_consts. lia.
    + unfold slot_ok. rewrite HS. unfold s. cbn [offset].
      change (DataStart q) with (dataTop p - recordSize key value).
      unfold klen_at, vlen_at in *.
      rewrite !(agree_sub q q' (Count p) (dataTop q)) by (auto; lia).
      rewrite Hkl, Hvl. unfold_consts. lia.
  - rewrite (scan_agree q q' (Count p) (dataTop q));
      [ | unfold_consts; lia | exact HAG | lia | unfold_consts; lia
        | | lia | lia ].
    + unfold q. rewrite ReadRecord_written_old by assumption. exact HR.
    + intros i Hi. destruct HIq as (_ & _ & _ & Hsl). apply Hsl. lia.
Qed.

Lemma X6_flagged_slot_is_skipped_witness :
  let q := written page_a "b" "world" in
  exists q',
    WriteRecord page_a "b" "world" = Ret (q, None) /\
    ReadRecord q "b" = Ret ("world", true) /\
    SetSlot q (Count page_a) (mkSlotArr (DataStart q) (recordSize "b" "world") 1)
    = Ret q' /\
    ReadRecord q' "b" = Ret ("", false).
Proof.
  apply (X6_flagged_slot_is_skipped pm0 [("a", "hello")] page_a "b" "world" 1);
    try (vm_compute; reflexivity); try (vm_compute; discriminate).
  unfold is_uint16. lia.
Defined.

(* ------------------------------------------------------------------ *)
(** ** Reads and writes of a fault-free file *)

Lemma byte_at_upd_gen (buf : list byte) (lo : Z) (src : list byte) (j : Z) :
  0 <= lo <= lenZ buf -> 0 <= j ->
  byte_at (upd buf lo src) j
  = if (lo <=? j) && (j <? lo + lenZ src)
    then byte_at src (j - lo) else byte_at buf j.
Proof.
  unfold lenZ, upd, byte_at. intros H0 Hj.
  assert (Hf : length (firstn (Z.to_nat lo) buf) = Z.to_nat lo)
    by (rewrite length_firstn; lia).
  destruct (Z.leb_spec lo j); simpl.
  - rewrite app_nth2 by lia. rewrite Hf.
    destruct (Z.ltb_spec j (lo + Z.of_nat (length src))).
    + rewrite app_nth1 by lia. f_equal. lia.
    + rewrite app_nth2 by lia. rewrite nth_skipn. f_equal. lia.
  - rewrite app_nth1 by lia. rewrite nth_firstn.
    destruct (Nat.ltb_spec (Z.to_nat j) (Z.to_nat lo)); [reflexivity | lia].
Qed.

Lemma lenZ_upd_gen (buf : list byte) (lo : Z) (src : list byte) :
  0 <= lo <= lenZ buf ->
  lenZ (upd buf lo src) = Z.max (lenZ buf) (lo + lenZ src).
Proof.
  unfold lenZ, upd. intros H.
  rewrite !length_app, length_firstn, length_skipn. lia.
Qed.

Lemma byte_at_pad (d : list byte) (n j : Z) :
  0 <= j -> byte_at (d ++ zeros n) j = byte_at d j.
Proof.
  intros Hj. unfold byte_at, zeros.
  destruct (Nat.lt_ge_cases (Z.to_nat j) (length d)).
  - now apply app_nth1.
  - rewrite app_nth2 by lia. rewrite nth_repeat.
    symmetry. apply nth_overflow. lia.
Qed.

Lemma lenZ_pad (d : list byte) (off : Z) :
  lenZ (d ++ zeros (off - lenZ d)) = Z.max (lenZ d) off.
Proof.
  unfold lenZ, zeros. rewrite length_app, repeat_length. lia.
Qed.

(** Slices inside both buffers that hold the same bytes are equal. *)
Lemma sub_ext_in (buf buf' : list byte) (lo hi : Z) :
  0 <= lo -> hi <= lenZ buf -> hi <= lenZ buf' ->
  (forall j, lo <= j < hi -> byte_at buf' j = byte_at buf j) ->
  sub buf' lo hi = sub buf lo hi.
Proof.
  intros H0 H1 H2 Hb. apply nth_ext with (d := x00) (d' := x00).
  - rewrite !length_sub. unfold lenZ in *. lia.
  - intros j Hj. rewrite !nth_sub by lia.
    destruct (Nat.ltb_spec j (Z.to_nat (hi - lo))); [| reflexivity].
    apply Hb. lia.
Qed.

(** The file a write leaves: the bytes written where they were put, every
    other byte as before, and a length that never shrinks. *)
Lemma written_file (d b : list byte) (off : Z) :
  0 <= off ->
  let d' := upd (d ++ zeros (off - lenZ d)) off b in
  lenZ d' = Z.max (lenZ d) (off + lenZ b) /\
  sub d' off (off + lenZ b) = b /\
  (forall lo hi, 0 <= lo -> hi <= lenZ d -> hi <= off \/ off + lenZ b <= lo ->
                 sub d' lo hi = sub d lo hi).
Proof.
  intros H0 d'.
  pose proof (lenZ_nonneg b) as Hb. pose proof (lenZ_nonneg d) as Hd.
  assert (HP : lenZ (d ++ zeros (off - lenZ d)) = Z.max (lenZ d) off)
    by apply lenZ_pad.
  assert (HL : lenZ d' = Z.max (lenZ d) (off + lenZ b)).
  { unfold d'. rewrite lenZ_upd_gen by lia. lia. }
  assert (HB : forall j, 0 <= j ->
            byte_at d' j = if (off <=? j) && (j <? off + lenZ b)
                           then byte_at b (j - off) else byte_at d j).
  { intros j Hj. unfold d'. rewrite byte_at_upd_gen by lia.
    now rewrite byte_at_pad by lia. }
  split; [exact HL |]. split.
  - apply nth_ext with (d := x00) (d' := x00).
    + rewrite length_sub. unfold lenZ in *. lia.
    + intros j Hj. rewrite length_sub in Hj. rewrite nth_sub by lia.
      destruct (Nat.ltb_spec j (Z.to_nat (off + lenZ b - off)));
        [| unfold lenZ in *; lia].
      rewrite HB by lia.
      destruct (Z.leb_spec off (off + Z.of_nat j)); [| lia].
      destruct (Z.ltb_spec (off + Z.of_nat j) (off + lenZ b));
        [| unfold lenZ in *; lia].
      cbn [andb]. unfold byte_at. f_equal. lia.
  - intros lo hi Hlo Hhi Hdis. apply sub_ext_in; try lia.
    intros j Hj. rewrite HB by lia.
    destruct (Z.leb_spec off j), (Z.ltb_spec j (off + lenZ b));
      cbn [andb]; try reflexivity; lia.
Qed.

Lemma ReadAt_ok (d : list byte) (n off : Z) :
  0 <= off -> 0 <= n -> off + n <= lenZ d ->
  ReadAt (mkFile d []) n off = ((sub d off (off + n), None), mkFile d []).
Proof.
  intros H0 Hn Hl. rewrite ReadAt_nofault.
  - unfold sub. replace (off + n - off) with n by lia. reflexivity.
  - lia.
  - unfold lenZ in *. rewrite length_skipn. lia.
Qed.

Lemma ReadAt_eof (d : list byte) (n off : Z) :
  0 <= off -> 0 < n -> lenZ d < off + n ->
  exists buf, ReadAt (mkFile d []) n off = ((buf, Some io_EOF), mkFile d []).
Proof.
  intros H0 Hn Hl. unfold ReadAt.
  destruct (Z.ltb_spec off 0); [lia |]. cbn [next_fault faults data].
  destruct (Z.leb_spec n (lenZ (skipn (Z.to_nat off) d))) as [H1 | H1].
  - unfold lenZ in *. rewrite length_skipn in H1. lia.
  - eauto.
Qed.

Lemma pageOffset_small (pageId : Z) :
  0 <= pageId <= max_page_id -> pageOffset pageId = pageId * PageSize.
Proof.
  unfold max_page_id, pageOffset, int_of_uint64, wrap64, PageSize.
  intros H. rewrite Z.mod_small by lia.
  destruct (Z.ltb_spec (pageId * 4096) (2 ^ 63)); lia.
Qed.

(** [LoadPage] on a fault-free store: the page parsed from the file when
    its 4096 bytes are there, [io.EOF] otherwise; the manager is left as it
    was. *)
Lemma LoadPage_fault_free (pm : PageManager) (pageId : Z) :
  fault_free pm -> 0 <= pageId <= max_page_id ->
  LoadPage pm pageId
  = if pageId * PageSize + PageSize <=? lenZ (file_data pm)
    then (inl (LoadPage_parse
                 (sub (file_data pm) (pageId * PageSize)
                      (pageId * PageSize + PageSize))), pm)
    else (inr io_EOF, pm).
Proof.
  intros HF Hid. destruct pm as [ps [path [d f]] m].
  unfold fault_free, file_data in *. cbn [Disk_ File faults data] in *.
  subst f. unfold LoadPage, Disk_Read. cbn [Disk_ File FilePath].
  rewrite pageOffset_small by exact Hid.
  destruct (Z.leb_spec (pageId * PageSize + PageSize) (lenZ d)).
  - rewrite ReadAt_ok by (unfold PageSize in *; lia). reflexivity.
  - destruct (ReadAt_eof d PageSize (pageId * PageSize))
      as (buf & ->); [unfold PageSize; lia | unfold PageSize; lia | lia |].
    reflexivity.
Qed.

(** [writePageToDisk] on a fault-free store succeeds and changes the file
    as [written_file] says. *)
Lemma writePageToDisk_fault_free (pm : PageManager) (page : Page) :
  fault_free pm -> 0 <= PageId page <= max_page_id ->
  exists pm',
    writePageToDisk pm page = (None, pm') /\
    fault_free pm' /\ MetaData pm' = MetaData pm /\
    file_data pm'
    = upd (file_data pm
             ++ zeros (PageId page * PageSize - lenZ (file_data pm)))
          (PageId page * PageSize) (writePageToDisk_buf page).
Proof.
  intros HF Hid. destruct pm as [ps [path [d f]] m].
  unfold fault_free, file_data in *. cbn [Disk_ File faults data] in *.
  subst f. unfold writePageToDisk, Disk_Write. cbn [Disk_ File FilePath].
  rewrite pageOffset_small by exact Hid.
  rewrite WriteAt_nofault by (unfold PageSize; lia).
  eexists. split; [reflexivity |]. repeat split.
Qed.

Lemma lenZ_image (page : Page) :
  page_typed page -> lenZ (writePageToDisk_buf page) = PageSize.
Proof.
  intros (_ & _ & _ & _ & HL). now apply lenZ_writePageToDisk_buf.
Qed.

Lemma LoadPage_after_write (pm pm' : PageManager) (page : Page) :
  fault_free pm -> page_typed page -> PageId page <= max_page_id ->
  writePageToDisk pm page = (None, pm') ->
  fault_free pm' /\ MetaData pm' = MetaData pm /\
  LoadPage pm' (PageId page) = (inl page, pm') /\
  (forall j q, 0 <= j <= max_page_id -> j <> PageId page ->
               fst (LoadPage pm j) = inl q -> LoadPage pm' j = (inl q, pm')).
Proof.
  intros HF HT Hmax Hw.
  assert (Hid : 0 <= PageId page <= max_page_id)
    by (destruct HT as ((? & _) & _); lia).
  destruct (writePageToDisk_fault_free pm page HF Hid)
    as (pm1 & Hw1 & HF1 & HM1 & HD1).
  rewrite Hw in Hw1. injection Hw1 as <-.
  pose proof (lenZ_image page HT) as HI.
  destruct (written_file (file_data pm) (writePageToDisk_buf page)
              (PageId page * PageSize)) as (HL & HS & HO);
    [unfold PageSize; lia |].
  rewrite <- HD1, HI in HL, HS, HO.
  split; [exact HF1 |]. split; [exact HM1 |]. split.
  - rewrite LoadPage_fault_free by assumption.
    destruct (Z.leb_spec (PageId page * PageSize + PageSize)
                         (lenZ (file_data pm'))); [| lia].
    rewrite HS. now rewrite LoadPage_parse_image.
  - intros j q Hj Hne Hq.
    rewrite LoadPage_fault_free in Hq by assumption.
    rewrite LoadPage_fault_free by assumption.
    destruct (Z.leb_spec (j * PageSize + PageSize) (lenZ (file_data pm)));
      [| discriminate].
    destruct (Z.leb_spec (j * PageSize + PageSize) (lenZ (file_data pm')));
      [| lia].
    cbn [fst] in Hq. injection Hq as <-.
    rewrite HO by (unfold PageSize in *; lia). reflexivity.
Qed.

(** X7. A page persisted by [writePageToDisk] on a fault-free store is the
    page [LoadPage] returns for its id (ids up to 2^51 - 1, whose byte
    offset fits an [int]). *)
Theorem X7_store_page_round_trip (pm : PageManager) (page : Page) :
  fault_free pm -> page_typed page -> PageId page <= max_page_id ->
  exists pm',
    writePageToDisk pm page = (None, pm') /\
    LoadPage pm' (PageId page) = (inl page, pm').
Proof.
  intros HF HT Hmax.
  assert (Hid : 0 <= PageId page <= max_page_id)
    by (destruct HT as ((? & _) & _); lia).
  destruct (writePageToDisk_fault_free pm page HF Hid) as (pm' & Hw & _).
  exists pm'. split; [exact Hw |].
  now destruct (LoadPage_after_write pm pm' page HF HT Hmax Hw) as (_ & _ & ? & _).
Qed.

Lemma X7_store_page_round_trip_witness :
  exists pm',
    writePageToDisk pm0 page_ab = (None, pm') /\
    LoadPage pm' (PageId page_ab) = (inl page_ab, pm').
Proof.
  apply (X7_store_page_round_trip pm0 page_ab).
  - reflexivity.
  - unfold page_typed, body_typed, is_uint64, is_uint32, is_uint16.
    repeat split; try (vm_compute; reflexivity);
      vm_compute; intros; discriminate.
  - vm_compute. intros; discriminate.
Defined.



(* ------------------------------------------------------------------ *)
(** ** The metadata page *)

Lemma lenZ_PutUint64 (v : Z) : lenZ (PutUint64 v) = 8.
Proof. reflexivity. Qed.

Ltac meta_len :=
  repeat first
    [ rewrite lenZ_PutUint64
    | rewrite lenZ_zeros by (unfold PageSize; lia)
    | rewrite lenZ_upd by meta_len ];
  unfold PageSize in *; try lia.

Lemma lenZ_SaveMetaDataPage_buf (m : DatabaseMeta) :
  lenZ (SaveMetaDataPage_buf m) = PageSize.
Proof. unfold SaveMetaDataPage_buf. meta_len. Qed.

Lemma SaveMetaDataPage_buf_fields (m : DatabaseMeta) :
  meta_typed m ->
  mkMeta (Uint64 (sub (SaveMetaDataPage_buf m) 0 8))
         (Uint64 (sub (SaveMetaDataPage_buf m) 8 16))
         (Uint64 (sub (SaveMetaDataPage_buf m) 16 24)) = m.
Proof.
  intros (H1 & H2 & H3). unfold SaveMetaDataPage_buf.
  rewrite (sub_upd_other _ 16 _ 0 8) by meta_len.
  rewrite (sub_upd_other _ 8 _ 0 8) by meta_len.
  rewrite (sub_upd_same _ 0 _ 8) by meta_len.
  rewrite (sub_upd_other _ 16 _ 8 16) by meta_len.
  rewrite (sub_upd_same _ 8 _ 16) by meta_len.
  rewrite (sub_upd_same _ 16 _ 24) by meta_len.
  rewrite !Uint64_PutUint64 by assumption.
  destruct m; reflexivity.
Qed.

Lemma SaveMetaDataPage_fault_free (pm : PageManager) :
  fault_free pm ->
  exists pm',
    SaveMetaDataPage pm = (None, pm') /\
    fault_free pm' /\ MetaData pm' = MetaData pm /\
    file_data pm'
    = upd (file_data pm ++ zeros (0 - lenZ (file_data pm)))
          0 (SaveMetaDataPage_buf (MetaData pm)).
Proof.
  intros HF. destruct pm as [ps [path [d f]] m].
  unfold fault_free, file_data in *. cbn [Disk_ File faults data] in *.
  subst f. unfold SaveMetaDataPage, Disk_Write.
  cbn [Disk_ File FilePath MetaData].
  rewrite WriteAt_nofault by lia.
  eexists. split; [reflexivity |]. repeat split.
Qed.

Lemma LoadMetaPage_fault_free (pm : PageManager) :
  fault_free pm ->
  LoadMetaPage pm
  = if PageSize <=? lenZ (file_data pm)
    then (None,
          mkPM (Pages pm) (Disk_ pm)
               (mkMeta (Uint64 (sub (sub (file_data pm) 0 PageSize) 0 8))
                       (Uint64 (sub (sub (file_data pm) 0 PageSize) 8 16))
                       (Uint64 (sub (sub (file_data pm) 0 PageSize) 16 24))))
    else (Some io_EOF, pm).
Proof.
  intros HF. destruct pm as [ps [path [d f]] m].
  unfold fault_free, file_data in *. cbn [Disk_ File faults data] in *.
  subst f. unfold LoadMetaPage, Disk_Read. cbn [Disk_ File FilePath].
  destruct (Z.leb_spec PageSize (lenZ d)).
  - rewrite ReadAt_ok by (unfold PageSize in *; lia). reflexivity.
  - destruct (ReadAt_eof d PageSize 0) as (buf & ->);
      [lia | unfold PageSize; lia | lia |].
    reflexivity.
Qed.

Lemma after_SaveMetaDataPage (pm pm' : PageManager) :
  fault_free pm -> SaveMetaDataPage pm = (None, pm') ->
  fault_free pm' /\ MetaData pm' = MetaData pm /\
  sub (file_data pm') 0 PageSize = SaveMetaDataPage_buf (MetaData pm) /\
  PageSize <= lenZ (file_data pm') /\
  (forall j q, 1 <= j <= max_page_id ->
               fst (LoadPage pm j) = inl q -> LoadPage pm' j = (inl q, pm')).
Proof.
  intros HF Hs.
  destruct (SaveMetaDataPage_fault_free pm HF) as (pm1 & Hs1 & HF1 & HM1 & HD1).
  rewrite Hs in Hs1. injection Hs1 as <-.
  pose proof (lenZ_SaveMetaDataPage_buf (MetaData pm)) as HI.
  destruct (written_file (file_data pm) (SaveMetaDataPage_buf (MetaData pm)) 0)
    as (HL & HS & HO); [lia |].
  rewrite <- HD1, HI in HL, HS, HO.
  split; [exact HF1 |]. split; [exact HM1 |]. split; [exact HS |].
  split; [lia |].
  intros j q Hj Hq.
  rewrite LoadPage_fault_free in Hq by (auto; lia).
  rewrite LoadPage_fault_free by (auto; lia).
  destruct (Z.leb_spec (j * PageSize + PageSize) (lenZ (file_data pm)));
    [| discriminate].
  destruct (Z.leb_spec (j * PageSize + PageSize) (lenZ (file_data pm')));
    [| lia].
  cbn [fst] in Hq. injection Hq as <-.
  rewrite HO by (unfold PageSize in *; lia). reflexivity.
Qed.

(** X9. The metadata [SaveMetaDataPage] persists on a fault-free store is
    what [LoadMetaPage] reads back, whatever metadata the reading manager
    held before (as after a restart). *)
Theorem X9_metadata_round_trip (pm : PageManager) (m0 : DatabaseMeta) :
  fault_free pm -> meta_typed (MetaData pm) ->
  exists pm',
    SaveMetaDataPage pm = (None, pm') /\
    MetaData pm' = MetaData pm /\
    LoadMetaPage (mkPM (Pages pm') (Disk_ pm') m0) = (None, pm').
Proof.
  intros HF HT.
  destruct (SaveMetaDataPage_fault_free pm HF) as (pm' & Hs & _).
  destruct (after_SaveMetaDataPage pm pm' HF Hs) as (HF' & HM & HB & HL & _).
  exists pm'. split; [exact Hs |]. split; [exact HM |].
  rewrite LoadMetaPage_fault_free by exact HF'.
  change (file_data (mkPM (Pages pm') (Disk_ pm') m0)) with (file_data pm').
  destruct (Z.leb_spec PageSize (lenZ (file_data pm'))); [| lia].
  rewrite HB, SaveMetaDataPage_buf_fields by exact HT.
  cbn [Pages Disk_]. rewrite <- HM. destruct pm'; reflexivity.
Qed.

Lemma X9_metadata_round_trip_witness :
  exists pm',
    SaveMetaDataPage c2_before = (None, pm') /\
    MetaData pm' = MetaData c2_before /\
    LoadMetaPage (mkPM (Pages pm') (Disk_ pm') (mkMeta 1 0 1)) = (None, pm').
Proof.
  apply (X9_metadata_round_trip c2_before (mkMeta 1 0 1)).
  - vm_compute. reflexivity.
  - unfold meta_typed, is_uint64.
    repeat split; vm_compute; first [reflexivity | intros; discriminate].
Defined.



(** X11. Reading past the end of the file: on a fault-free store,
    [LoadPage] of a page whose 4096 bytes are not all in the file returns
    [io.EOF], and [LoadMetaPage] on a file shorter than a page returns
    [io.EOF] and leaves the metadata in memory as it was. *)
Theorem X11_read_past_end (pm : PageManager) (j : Z) :
  fault_free pm ->
  (lenZ (file_data pm) < PageSize -> LoadMetaPage pm = (Some io_EOF, pm)) /\
  (0 <= j <= max_page_id ->
   lenZ (file_data pm) < j * PageSize + PageSize ->
   LoadPage pm j = (inr io_EOF, pm)).
Proof.
  intros HF. split.
  - intros H. rewrite LoadMetaPage_fault_free by exact HF.
    destruct (Z.leb_spec PageSize (lenZ (file_data pm))); [lia | reflexivity].
  - intros Hj H. rewrite LoadPage_fault_free by assumption.
    destruct (Z.leb_spec (j * PageSize + PageSize) (lenZ (file_data pm)));
      [lia | reflexivity].
Qed.

Lemma X11_read_past_end_witness :
  (lenZ (file_data c2_before) < PageSize ->
   LoadMetaPage c2_before = (Some io_EOF, c2_before)) /\
  (0 <= 2 <= max_page_id ->
   lenZ (file_data c2_before) < 2 * PageSize + PageSize ->
   LoadPage c2_before 2 = (inr io_EOF, c2_before)).
Proof.
  apply (X11_read_past_end c2_before 2). vm_compute. reflexivity.
Defined.

(* ------------------------------------------------------------------ *)
(** ** The two scans over the pages *)

Lemma LoadPage_MetaData (pm : PageManager) (pageId : Z) :
  MetaData (snd (LoadPage pm pageId)) = MetaData pm.
Proof.
  unfold LoadPage.
  destruct (Disk_Read (Disk_ pm) (pageOffset pageId) PageSize)
    as ((buf & [e|]) & d); reflexivity.
Qed.

Lemma wrap64_succ (pageId last : Z) :
  0 <= pageId <= last -> last < 2 ^ 64 - 1 ->
  wrap64 (pageId + 1) = pageId + 1.
Proof.
  intros H1 H2. unfold wrap64. apply Z.mod_small. lia.
Qed.

Lemma wrap64_nonneg (x : Z) : 0 <= wrap64 x.
Proof.
  unfold wrap64. apply Z.mod_pos_bound. lia.
Qed.





Lemma FindRecord_loop_sound (fuel : nat) :
  forall (pm : PageManager) (key : string) (pageId : Z) (v : string)
         (err : option error) (pm' : PageManager),
    0 <= pageId ->
    FindRecord_loop fuel pm key pageId = Ret ((v, err), pm') ->
    MetaData pm' = MetaData pm /\
    match err with
    | None =>
        exists id pmi page,
          id <= LastPageId (MetaData pm) /\
          (LastPageId (MetaData pm) < 2 ^ 64 - 1 -> pageId <= id) /\
          MetaData pmi = MetaData pm /\
          LoadPage pmi id = (inl page, pm') /\
          ReadRecord page key = Ret (v, true)
    | Some e => e = errors_New "key not found" /\ v = ""
    end.
Proof.
  induction fuel as [|fuel IH]; intros pm key pageId v err pm' H0 H;
    cbn [FindRecord_loop] in H; [discriminate |].
  destruct (Z.leb_spec pageId (LastPageId (MetaData pm))) as [Hle | Hgt].
  - pose proof (LoadPage_MetaData pm pageId) as HM.
    destruct (LoadPage pm pageId) as (r1 & pm1) eqn:EL. cbn [snd] in HM.
    assert (HN : FindRecord_loop fuel pm1 key (wrap64 (pageId + 1))
                 = Ret ((v, err), pm') ->
                 MetaData pm' = MetaData pm /\
                 match err with
                 | None =>
                     exists id pmi page,
                       id <= LastPageId (MetaData pm) /\
                       (LastPageId (MetaData pm) < 2 ^ 64 - 1 ->
                        pageId <= id) /\
                       MetaData pmi = MetaData pm /\
                       LoadPage pmi id = (inl page, pm') /\
                       ReadRecord page key = Ret (v, true)
                 | Some e => e = errors_New "key not found" /\ v = ""
                 end).
    { intros HL. apply IH in HL; [| apply wrap64_nonneg].
      rewrite HM in HL. destruct HL as [HL1 HL2]. split; [exact HL1 |].
      destruct err as [e |]; [exact HL2 |].
      destruct HL2 as (id & pmi & page & Hid & Hlow & Hmi & HLd & HR).
      exists id, pmi, page. repeat split; auto.
      intros Hlast. specialize (Hlow Hlast).
      rewrite (wrap64_succ pageId (LastPageId (MetaData pm))) in Hlow; lia. }
    destruct r1 as [page | e]; [| exact (HN H)].
    destruct (ReadRecord page key) as [(v1 & found)| |] eqn:ER;
      cbn [bind] in H; try discriminate.
    destruct found; [| exact (HN H)].
    injection H as <- <- <-. split; [exact HM |].
    exists pageId, pm, page. repeat split; auto; lia.
  - injection H as <- <- <-. repeat split.
Qed.

(** X13. A value [FindRecord] returns was found by [ReadRecord] in a page
    loaded from an id up to [LastPageId] (from 1, when [LastPageId] is
    below 2^64 - 1); the only error it returns is "key not found", with
    the empty string; it leaves the metadata in memory unchanged. *)
Theorem X13_FindRecord_sound (fuel : nat) (pm : PageManager) (key v : string)
  (err : option error) (pm' : PageManager) :
  FindRecord fuel pm key = Ret ((v, err), pm') ->
  MetaData pm' = MetaData pm /\
  match err with
  | None =>
      exists id pmi page,
        id <= LastPageId (MetaData pm) /\
        (LastPageId (MetaData pm) < 2 ^ 64 - 1 -> 1 <= id) /\
        MetaData pmi = MetaData pm /\
        LoadPage pmi id = (inl page, pm') /\
        ReadRecord page key = Ret (v, true)
  | Some e => e = errors_New "key not found" /\ v = ""
  end.
Proof.
  intros H. apply (FindRecord_loop_sound fuel pm key 1); [lia | exact H].
Qed.

Lemma X13_FindRecord_sound_witness :
  MetaData c7_state = MetaData c7_state /\
  exists id pmi page,
    id <= LastPageId (MetaData c7_state) /\
    (LastPageId (MetaData c7_state) < 2 ^ 64 - 1 -> 1 <= id) /\
    MetaData pmi = MetaData c7_state /\
    LoadPage pmi id = (inl page, c7_state) /\
    ReadRecord page "a" = Ret ("y", true).
Proof.
  apply (X13_FindRecord_sound 3 c7_state "a" "y" None c7_state).
  vm_compute. reflexivity.
Defined.

Lemma findPageWithSpace_loop_terminates (fuel : nat) :
  forall (pm : PageManager) (rs pageId : Z),
    LastPageId (MetaData pm) < 2 ^ 64 - 1 ->
    1 <= pageId <= LastPageId (MetaData pm) + 1 ->
    LastPageId (MetaData pm) + 1 - pageId < Z.of_nat fuel ->
    findPageWithSpace_loop fuel pm rs pageId <> Timeout.
Proof.
  induction fuel as [|fuel IH]; intros pm rs pageId HL Hp Hf;
    cbn [findPageWithSpace_loop]; [lia |].
  destruct (Z.leb_spec pageId (LastPageId (MetaData pm))); [| discriminate].
  pose proof (LoadPage_MetaData pm pageId) as HM.
  destruct (LoadPage pm pageId) as (r1 & pm1). cbn [snd] in HM.
  assert (HW : wrap64 (pageId + 1) = pageId + 1)
    by (unfold wrap64; apply Z.mod_small; lia).
  assert (HR : findPageWithSpace_loop fuel pm1 rs (wrap64 (pageId + 1))
               <> Timeout)
    by (rewrite HW; apply IH; rewrite HM; lia).
  destruct r1 as [page | e]; [| exact HR].
  destruct (HasSpace page rs); [discriminate | exact HR].
Qed.

Lemma get16_no_timeout (buf : list byte) (lo : Z) : get16 buf lo <> Timeout.
Proof.
  unfold get16, slice. destruct (in_bounds buf lo (lo + 2)); discriminate.
Qed.

Lemma slice_no_timeout (buf : list byte) (lo hi : Z) :
  slice buf lo hi <> Timeout.
Proof. unfold slice. destruct (in_bounds buf lo hi); discriminate. Qed.

Lemma GetSlot_no_timeout (p : Page) (i : Z) : GetSlot p i <> Timeout.
Proof.
  unfold GetSlot, get16, slice.
  repeat match goal with
    | |- context [in_bounds ?b ?lo ?hi] =>
        destruct (in_bounds b lo hi); cbn [bind]; try discriminate
    end.
Qed.

Lemma ReadRecord_loop_no_timeout (p : Page) (kb : list byte) (n : nat) :
  forall i, ReadRecord_loop p kb n i <> Timeout.
Proof.
  induction n as [|n IH]; intros i; cbn [ReadRecord_loop]; [discriminate |].
  pose proof (GetSlot_no_timeout p i).
  destruct (GetSlot p i) as [s| |]; cbn [bind]; try discriminate;
    [| contradiction].
  destruct (negb (flag s =? 0)); [apply IH |].
  pose proof (get16_no_timeout (Ptr p) (offset s)).
  destruct (get16 (Ptr p) (offset s)) as [ks| |]; cbn [bind];
    try discriminate; [| contradiction].
  pose proof (get16_no_timeout (Ptr p) (offset s + 2)).
  destruct (get16 (Ptr p) (offset s + 2)) as [vs| |]; cbn [bind];
    try discriminate; [| contradiction].
  pose proof (slice_no_timeout (Ptr p) (offset s + 2 + 2)
                (offset s + 2 + 2 + ks)).
  destruct (slice (Ptr p) (offset s + 2 + 2) _) as [rk| |]; cbn [bind];
    try discriminate; [| contradiction].
  pose proof (slice_no_timeout (Ptr p) (offset s + 2 + 2 + ks)
                (offset s + 2 + 2 + ks + vs)).
  destruct (slice (Ptr p) (offset s + 2 + 2 + ks) _) as [rv| |]; cbn [bind];
    try discriminate; [| contradiction].
  destruct (String.eqb _ _); [discriminate | apply IH].
Qed.

Lemma FindRecord_loop_terminates (fuel : nat) :
  forall (pm : PageManager) (key : string) (pageId : Z),
    LastPageId (MetaData pm) < 2 ^ 64 - 1 ->
    1 <= pageId <= LastPageId (MetaData pm) + 1 ->
    LastPageId (MetaData pm) + 1 - pageId < Z.of_nat fuel ->
    FindRecord_loop fuel pm key pageId <> Timeout.
Proof.
  induction fuel as [|fuel IH]; intros pm key pageId HL Hp Hf;
    cbn [FindRecord_loop]; [lia |].
  destruct (Z.leb_spec pageId (LastPageId (MetaData pm))); [| discriminate].
  pose proof (LoadPage_MetaData pm pageId) as HM.
  destruct (LoadPage pm pageId) as (r1 & pm1). cbn [snd] in HM.
  assert (HW : wrap64 (pageId + 1) = pageId + 1)
    by (unfold wrap64; apply Z.mod_small; lia).
  assert (HR : FindRecord_loop fuel pm1 key (wrap64 (pageId + 1)) <> Timeout)
    by (rewrite HW; apply IH; rewrite HM; lia).
  destruct r1 as [page | e]; [| exact HR].
  pose proof (ReadRecord_loop_no_timeout page (list_byte_of_string key)
                (Z.to_nat (Count page)) 0) as HT.
  fold (ReadRecord page key) in HT.
  destruct (ReadRecord page key) as [(v1 & found)| |]; cbn [bind];
    try discriminate; [| contradiction].
  destruct found; [discriminate | exact HR].
Qed.

(** X14. The two scans end: with [LastPageId] below 2^64 - 1 the loop
    over the page ids makes at most [LastPageId + 1] tests, so with more
    fuel than [LastPageId] neither [findPageWithSpace] nor [FindRecord]
    runs out of it. *)
Theorem X14_scans_terminate (fuel : nat) (pm : PageManager) (rs : Z)
  (key : string) :
  0 <= LastPageId (MetaData pm) < 2 ^ 64 - 1 ->
  LastPageId (MetaData pm) < Z.of_nat fuel ->
  findPageWithSpace fuel pm rs <> Timeout /\
  FindRecord fuel pm key <> Timeout.
Proof.
  intros HL Hf. split.
  - apply findPageWithSpace_loop_terminates; lia.
  - apply FindRecord_loop_terminates; lia.
Qed.

Lemma X14_scans_terminate_witness :
  findPageWithSpace 3 c7_state 10 <> Timeout /\
  FindRecord 3 c7_state "zz" <> Timeout.
Proof.
  apply (X14_scans_terminate 3 c7_state 10 "zz").
  - vm_compute. split; [intros; discriminate | reflexivity].
  - vm_compute. reflexivity.
Defined.

(* ------------------------------------------------------------------ *)
(** ** Which page a scan stops at *)

Lemma inl_eq {A B : Type} (a b : A) : @inl A B a = inl b -> a = b.
Proof.
  intros H. injection H as ->. reflexivity.
Qed.

Lemma LoadPage_state (pm : PageManager) (pageId : Z) :
  fault_free pm -> snd (LoadPage pm pageId) = pm.
Proof.
  destruct pm as [ps [path [d f]] m]. unfold fault_free.
  cbn [Disk_ File faults]. intros ->.
  unfold LoadPage, Disk_Read, ReadAt, next_fault.
  cbn [Disk_ File FilePath faults data].
  destruct (pageOffset pageId <? 0); [reflexivity |].
  destruct (PageSize <=? lenZ (skipn (Z.to_nat (pageOffset pageId)) d));
    reflexivity.
Qed.

Lemma FindRecord_loop_hit (fuel : nat) (pm : PageManager) (key : string)
  (id : Z) (page : Page) (v : string) :
  fault_free pm -> LastPageId (MetaData pm) < 2 ^ 64 - 1 ->
  id <= LastPageId (MetaData pm) ->
  fst (LoadPage pm id) = inl page ->
  ReadRecord page key = Ret (v, true) ->
  forall pageId,
    0 <= pageId <= id -> id - pageId < Z.of_nat fuel ->
    (forall j q, pageId <= j < id -> fst (LoadPage pm j) = inl q ->
                 ReadRecord q key = Ret ("", false)) ->
    FindRecord_loop fuel pm key pageId = Ret ((v, None), pm).
Proof.
  intros HF Hlast Hid HL HR.
  induction fuel as [|fuel IH]; intros pageId Hp Hfuel Hmiss; [lia |].
  cbn [FindRecord_loop].
  destruct (Z.leb_spec pageId (LastPageId (MetaData pm))) as [_ | Hgt];
    [| lia].
  pose proof (LoadPage_state pm pageId HF) as HS.
  destruct (LoadPage pm pageId) as (r1 & pm1) eqn:EL. cbn [snd] in HS.
  subst pm1.
  destruct (Z.eq_dec pageId id) as [-> | Hne].
  - rewrite EL in HL. cbn [fst] in HL. subst r1. rewrite HR. reflexivity.
  - assert (HN : FindRecord_loop fuel pm key (wrap64 (pageId + 1))
                 = Ret ((v, None), pm)).
    { rewrite (wrap64_succ pageId (LastPageId (MetaData pm))) by lia.
      apply IH; [lia | lia |]. intros j q Hj. apply Hmiss. lia. }
    destruct r1 as [q | e]; [| exact HN].
    rewrite (Hmiss pageId q); [exact HN | lia |].
    rewrite EL. reflexivity.
Qed.

Lemma FindRecord_loop_all_miss (fuel : nat) (pm : PageManager) (key : string) :
  fault_free pm -> LastPageId (MetaData pm) < 2 ^ 64 - 1 ->
  forall pageId,
    0 <= pageId <= LastPageId (MetaData pm) + 1 ->
    LastPageId (MetaData pm) + 1 - pageId < Z.of_nat fuel ->
    (forall j q, pageId <= j <= LastPageId (MetaData pm) ->
                 fst (LoadPage pm j) = inl q ->
                 ReadRecord q key = Ret ("", false)) ->
    FindRecord_loop fuel pm key pageId
    = Ret (("", Some (errors_New "key not found")), pm).
Proof.
  intros HF Hlast.
  induction fuel as [|fuel IH]; intros pageId Hp Hfuel Hmiss; [lia |].
  cbn [FindRecord_loop].
  destruct (Z.leb_spec pageId (LastPageId (MetaData pm))) as [Hle | Hgt];
    [| reflexivity].
  pose proof (LoadPage_state pm pageId HF) as HS.
  destruct (LoadPage pm pageId) as (r1 & pm1) eqn:EL. cbn [snd] in HS.
  subst pm1.
  assert (HN : FindRecord_loop fuel pm key (wrap64 (pageId + 1))
               = Ret (("", Some (errors_New "key not found")), pm)).
  { rewrite (wrap64_succ pageId (LastPageId (MetaData pm))) by lia.
    apply IH; [lia | lia |]. intros j q Hj. apply Hmiss. lia. }
  destruct r1 as [q | e]; [| exact HN].
  rewrite (Hmiss pageId q); [exact HN | lia |].
  rewrite EL. reflexivity.
Qed.

(** X24. The lowest page wins: on a fault-free store, [FindRecord] returns
    the value [ReadRecord] finds in the page with the lowest id from 1 to
    [LastPageId] that loads and holds the key, and "key not found" when no
    page that loads holds it; the manager is left as it was. *)
Theorem X24_FindRecord_lowest_page_wins (fuel : nat) (pm : PageManager)
  (key : string) :
  fault_free pm ->
  0 <= LastPageId (MetaData pm) < 2 ^ 64 - 1 ->
  LastPageId (MetaData pm) < Z.of_nat fuel ->
  (forall id page v,
      1 <= id <= LastPageId (MetaData pm) ->
      fst (LoadPage pm id) = inl page ->
      ReadRecord page key = Ret (v, true) ->
      (forall j q, 1 <= j < id -> fst (LoadPage pm j) = inl q ->
                   ReadRecord q key = Ret ("", false)) ->
      FindRecord fuel pm key = Ret ((v, None), pm)) /\
  ((forall j q, 1 <= j <= LastPageId (MetaData pm) ->
                fst (LoadPage pm j) = inl q ->
                ReadRecord q key = Ret ("", false)) ->
   FindRecord fuel pm key
   = Ret (("", Some (errors_New "key not found")), pm)).
Proof.
  intros HF Hlast Hfuel. split.
  - intros id page v Hid HL HR Hmiss.
    apply (FindRecord_loop_hit fuel pm key id page v); auto; lia.
  - intros Hmiss. apply FindRecord_loop_all_miss; auto; lia.
Qed.

Lemma X24_FindRecord_lowest_page_wins_witness :
  FindRecord 3 c7_state "a" = Ret (("y", None), c7_state).
Proof.
  destruct (X24_FindRecord_lowest_page_wins 3 c7_state "a") as [HH _].
  - vm_compute. reflexivity.
  - vm_compute. split; [intros; discriminate | reflexivity].
  - vm_compute. reflexivity.
  - apply (HH 1 (page_of c7_state 1) "y").
    + vm_compute. split; intros; discriminate.
    + vm_compute. reflexivity.
    + vm_compute. reflexivity.
    + intros j q Hj. lia.
Defined.

Lemma findPageWithSpace_loop_hit (fuel : nat) (pm : PageManager) (rs : Z)
  (id : Z) (page : Page) :
  fault_free pm -> LastPageId (MetaData pm) < 2 ^ 64 - 1 ->
  id <= LastPageId (MetaData pm) ->
  fst (LoadPage pm id) = inl page ->
  HasSpace page rs = true ->
  forall pageId,
    0 <= pageId <= id -> id - pageId < Z.of_nat fuel ->
    (forall j q, pageId <= j < id -> fst (LoadPage pm j) = inl q ->
                 HasSpace q rs = false) ->
    findPageWithSpace_loop fuel pm rs pageId = Ret (inl page, pm).
Proof.
  intros HF Hlast Hid HL HR.
  induction fuel as [|fuel IH]; intros pageId Hp Hfuel Hmiss; [lia |].
  cbn [findPageWithSpace_loop].
  destruct (Z.leb_spec pageId (LastPageId (MetaData pm))) as [_ | Hgt];
    [| lia].
  pose proof (LoadPage_state pm pageId HF) as HS.
  destruct (LoadPage pm pageId) as (r1 & pm1) eqn:EL. cbn [snd] in HS.
  subst pm1.
  destruct (Z.eq_dec pageId id) as [-> | Hne].
  - rewrite EL in HL. cbn [fst] in HL. subst r1. rewrite HR. reflexivity.
  - assert (HN : findPageWithSpace_loop fuel pm rs (wrap64 (pageId + 1))
                 = Ret (inl page, pm)).
    { rewrite (wrap64_succ pageId (LastPageId (MetaData pm))) by lia.
      apply IH; [lia | lia |]. intros j q Hj. apply Hmiss. lia. }
    destruct r1 as [q | e]; [| exact HN].
    rewrite (Hmiss pageId q); [exact HN | lia |].
    rewrite EL. reflexivity.
Qed.

Lemma findPageWithSpace_loop_all_miss (fuel : nat) (pm : PageManager)
  (rs : Z) :
  fault_free pm -> LastPageId (MetaData pm) < 2 ^ 64 - 1 ->
  forall pageId,
    0 <= pageId <= LastPageId (MetaData pm) + 1 ->
    LastPageId (MetaData pm) + 1 - pageId < Z.of_nat fuel ->
    (forall j q, pageId <= j <= LastPageId (MetaData pm) ->
                 fst (LoadPage pm j) = inl q -> HasSpace q rs = false) ->
    findPageWithSpace_loop fuel pm rs pageId
    = Ret (inr (errors_New "no page with enough space"), pm).
Proof.
  intros HF Hlast.
  induction fuel as [|fuel IH]; intros pageId Hp Hfuel Hmiss; [lia |].
  cbn [findPageWithSpace_loop].
  destruct (Z.leb_spec pageId (LastPageId (MetaData pm))) as [Hle | Hgt];
    [| reflexivity].
  pose proof (LoadPage_state pm pageId HF) as HS.
  destruct (LoadPage pm pageId) as (r1 & pm1) eqn:EL. cbn [snd] in HS.
  subst pm1.
  assert (HN : findPageWithSpace_loop fuel pm rs (wrap64 (pageId + 1))
               = Ret (inr (errors_New "no page with enough space"), pm)).
  { rewrite (wrap64_succ pageId (LastPageId (MetaData pm))) by lia.
    apply IH; [lia | lia |]. intros j q Hj. apply Hmiss. lia. }
  destruct r1 as [q | e]; [| exact HN].
  rewrite (Hmiss pageId q); [exact HN | lia |].
  rewrite EL. reflexivity.
Qed.

(** X25. First fit: on a fault-free store, [findPageWithSpace] returns the
    page with the lowest id from 1 to [LastPageId] that loads and whose
    [FreeSpace] is at least the size asked, and "no page with enough
    space" when no page that loads has that much; the manager is left as
    it was. *)
Theorem X25_findPageWithSpace_first_fit (fuel : nat) (pm : PageManager)
  (rs : Z) :
  fault_free pm ->
  0 <= LastPageId (MetaData pm) < 2 ^ 64 - 1 ->
  LastPageId (MetaData pm) < Z.of_nat fuel ->
  (forall id page,
      1 <= id <= LastPageId (MetaData pm) ->
      fst (LoadPage pm id) = inl page ->
      rs <= FreeSpace page ->
      (forall j q, 1 <= j < id -> fst (LoadPage pm j) = inl q ->
                   FreeSpace q < rs) ->
      findPageWithSpace fuel pm rs = Ret (inl page, pm)) /\
  ((forall j q, 1 <= j <= LastPageId (MetaData pm) ->
                fst (LoadPage pm j) = inl q -> FreeSpace q < rs) ->
   findPageWithSpace fuel pm rs
   = Ret (inr (errors_New "no page with enough space"), pm)).
Proof.
  intros HF Hlast Hfuel. split.
  - intros id page Hid HL HR Hmiss.
    apply (findPageWithSpace_loop_hit fuel pm rs id page); auto; try lia.
    + unfold HasSpace. apply Z.geb_le. exact HR.
    + intros j q Hj HLj. unfold HasSpace.
      destruct (Z.geb_spec (FreeSpace q) rs) as [Hge | Hlt];
        [| reflexivity].
      specialize (Hmiss j q Hj HLj). lia.
  - intros Hmiss. apply findPageWithSpace_loop_all_miss; auto; try lia.
    intros j q Hj HLj. unfold HasSpace.
    destruct (Z.geb_spec (FreeSpace q) rs) as [Hge | Hlt]; [| reflexivity].
    specialize (Hmiss j q Hj HLj). lia.
Qed.

Lemma X25_findPageWithSpace_first_fit_witness :
  findPageWithSpace 3 c7_state 100
  = Ret (inl (page_of c7_state 2), c7_state).
Proof.
  destruct (X25_findPageWithSpace_first_fit 3 c7_state 100) as [HH _].
  - vm_compute. reflexivity.
  - vm_compute. split; [intros; discriminate | reflexivity].
  - vm_compute. reflexivity.
  - apply (HH 2 (page_of c7_state 2)).
    + vm_compute. split; intros; discriminate.
    + vm_compute. reflexivity.
    + vm_compute. intros; discriminate.
    + intros j q Hj HL. assert (j = 1) by lia. subst j.
      assert (Hq : q = page_of c7_state 1).
      { assert (HL1 : fst (LoadPage c7_state 1) = inl (page_of c7_state 1))
          by (vm_compute; reflexivity).
        rewrite HL1 in HL. symmetry. exact (inl_eq _ _ HL). }
      subst q. vm_compute. reflexivity.
Defined.

(* ------------------------------------------------------------------ *)
(** ** Inserts and lookups on a store that starts empty *)

(** X15. On a new manager over an empty file, [FindRecord] of any key
    returns "key not found" and changes nothing. *)
Theorem X15_lookup_in_empty_store (path key : string) (fuel : nat) :
  FindRecord (S (S fuel)) (new_store path) key
  = Ret (("", Some (errors_New "key not found")), new_store path).
Proof. reflexivity. Qed.

(** X16. [InsertRecord] never reports success for a key or a value longer
    than 400 bytes, whatever the store holds and whatever I/O does. *)
Theorem X16_oversize_insert_fails (fuel : nat) (pm pm' : PageManager)
  (key value : string) :
  MaxKeyBytes < slen key \/ MaxValueBytes < slen value ->
  InsertRecord fuel pm key value <> Ret (None, pm').
Proof.
  intros H.
  assert (HW : forall pmx page,
            InsertRecord_write pmx page key value <> Ret (None, pm')).
  { intros pmx page. unfold InsertRecord_write.
    destruct (WriteRecord_oversize page key value H) as (e & ->).
    cbn [bind]. discriminate. }
  unfold InsertRecord.
  destruct (findPageWithSpace fuel pm _) as [(r & pm1)| |]; cbn [bind];
    try discriminate.
  destruct r as [page | e]; [apply HW |].
  destruct (CreatePage pm1) as (page & pm2).
  destruct (writePageToDisk pm2 page) as ([e1|] & pm3); [discriminate |].
  destruct (SaveMetaDataPage pm3) as (e2 & pm4). apply HW.
Qed.

Lemma X16_oversize_insert_fails_witness :
  InsertRecord 2 c2_before (letters 401) "v" <> Ret (None, c2_before).
Proof.
  apply (X16_oversize_insert_fails 2 c2_before c2_before (letters 401) "v").
  left. vm_compute. reflexivity.
Defined.

(** X17. A rejected insert is not without effect: on a new manager over
    an empty file, [InsertRecord] with an oversize key or value returns
    the size error after it has created page 1 and persisted the empty
    page and the metadata. *)
Theorem X17_rejected_insert_allocates (path key value : string) (fuel : nat) :
  MaxKeyBytes < slen key \/ MaxValueBytes < slen value ->
  InsertRecord (S (S fuel)) (new_store path) key value
  = Ret (Some (if MaxKeyBytes <? slen key
               then errors_New "key size exceeds maximum allowed"
               else errors_New "value size exceeds maximum allowed"),
         store_with path (meta_image ++ writePageToDisk_buf first_page)).
Proof.
  intros H. unfold InsertRecord. rewrite findPageWithSpace_empty. cbn [bind].
  rewrite CreatePage_new, writePageToDisk_new, SaveMetaDataPage_new.
  unfold InsertRecord_write.
  rewrite (WriteRecord_cases first_page key value first_page_inv).
  destruct (Z.ltb_spec MaxKeyBytes (slen key)); [reflexivity |].
  destruct (Z.ltb_spec MaxValueBytes (slen value)); [reflexivity | lia].
Qed.

Lemma X17_rejected_insert_allocates_witness :
  InsertRecord 2 (new_store "test.db") (letters 401) "v"
  = Ret (Some (if MaxKeyBytes <? slen (letters 401)
               then errors_New "key size exceeds maximum allowed"
               else errors_New "value size exceeds maximum allowed"),
         store_with "test.db" (meta_image ++ writePageToDisk_buf first_page)).
Proof.
  apply (X17_rejected_insert_allocates "test.db" (letters 401) "v" 0).
  left. vm_compute. reflexivity.
Defined.

Lemma holds_store_with (path : string) (m : list byte) (q : Page) :
  lenZ m = PageSize ->
  holds path (store_with path (m ++ writePageToDisk_buf q)) q.
Proof. intros H. exists m. auto. Qed.

Lemma writePageToDisk_store (path : string) (m : list byte) (q q' : Page) :
  lenZ m = PageSize ->
  lenZ (Ptr q) = PageSize - HeaderSize ->
  lenZ (Ptr q') = PageSize - HeaderSize -> PageId q' = 1 ->
  writePageToDisk (store_with path (m ++ writePageToDisk_buf q)) q'
  = (None, store_with path (m ++ writePageToDisk_buf q')).
Proof.
  intros Hm HL HL' HP.
  pose proof (lenZ_writePageToDisk_buf q HL) as HI.
  pose proof (lenZ_writePageToDisk_buf q' HL') as HI'.
  unfold writePageToDisk, Disk_Write, store_with. rewrite HP, pageOffset_1.
  cbn [Disk_ File FilePath].
  rewrite WriteAt_nofault by (unfold PageSize; lia).
  rewrite zeros_nonpos by (rewrite lenZ_app, Hm, HI; unfold PageSize; lia).
  rewrite app_nil_r, upd_app_end by lia. reflexivity.
Qed.

(** An insert that fits into page 1, with the file it leaves. *)
Lemma InsertRecord_store (path : string) (m : list byte) (q : Page)
  (key value : string) (fuel : nat) :
  lenZ m = PageSize -> page_inv q -> PageId q = 1 -> fits q key value ->
  InsertRecord (S fuel) (store_with path (m ++ writePageToDisk_buf q))
               key value
  = Ret (None,
         store_with path (m ++ writePageToDisk_buf (written q key value))).
Proof.
  intros Hm HI HP HF.
  pose proof (inv_arith q key value HI HF) as A. cbn zeta in A.
  assert (HT : page_typed q).
  { split; [rewrite HP; unfold is_uint64; lia | now destruct HI]. }
  pose proof (written_inv q key value HI HF) as ((_ & _ & _ & HL') & _).
  pose proof (holds_store_with path m q Hm) as HH.
  unfold InsertRecord, findPageWithSpace.
  cbn [findPageWithSpace_loop]. rewrite (holds_meta path _ q HH).
  change (1 <=? 1) with true. cbn iota.
  rewrite (LoadPage_holds path _ q HH HT).
  unfold HasSpace. fold (recordSize key value).
  destruct (Z.geb_spec (FreeSpace q) (recordSize key value));
    [| destruct HF as (_ & _ & ?); unfold_consts; lia].
  cbn [bind]. unfold InsertRecord_write.
  rewrite (WriteRecord_fits q key value HI HF). cbn [bind].
  rewrite writePageToDisk_store; try assumption; [reflexivity |].
  unfold_consts. lia.
Qed.

Lemma InsertRecords_store (path : string) (m : list byte) (fuel : nat)
  (kvs : list (string * string)) :
  forall q q',
    lenZ m = PageSize -> page_inv q -> PageId q = 1 ->
    writeAll q kvs = Some q' ->
    InsertRecords (S fuel) (store_with path (m ++ writePageToDisk_buf q)) kvs
    = Ret (map (fun _ => None) kvs,
           store_with path (m ++ writePageToDisk_buf q')).
Proof.
  induction kvs as [|(k, v) kvs IH]; intros q q' Hm HI HP H; cbn in H.
  - injection H as <-. reflexivity.
  - destruct (WriteRecord q k v) as [(p', [e|])| |] eqn:E; try discriminate.
    destruct (WriteRecord_inv_page q p' k v HI E) as (HF & -> & HI').
    cbn [InsertRecords map].
    rewrite (InsertRecord_store path m q k v fuel Hm HI HP HF). cbn [bind].
    rewrite (IH _ q' Hm HI' HP H). reflexivity.
Qed.

Lemma FindRecord_store (path : string) (m : list byte) (q : Page)
  (key : string) (fuel : nat) :
  lenZ m = PageSize -> page_inv q -> PageId q = 1 ->
  FindRecord (S (S fuel)) (store_with path (m ++ writePageToDisk_buf q)) key
  = r <- ReadRecord q key ;;
    let (v, found) := r : string * bool in
    if found
    then Ret ((v, None), store_with path (m ++ writePageToDisk_buf q))
    else Ret (("", Some (errors_New "key not found")),
              store_with path (m ++ writePageToDisk_buf q)).
Proof.
  intros Hm HI HP.
  assert (HT : page_typed q).
  { split; [rewrite HP; unfold is_uint64; lia | now destruct HI]. }
  pose proof (holds_store_with path m q Hm) as HH.
  unfold FindRecord. cbn [FindRecord_loop].
  rewrite (holds_meta path _ q HH). change (1 <=? 1) with true. cbn iota.
  rewrite (LoadPage_holds path _ q HH HT).
  destruct (ReadRecord q key) as [(v & [|])| |]; reflexivity.
Qed.

Lemma meta_image_length : lenZ meta_image = PageSize.
Proof. reflexivity. Qed.

(** The inserts of pairs that fit into page 1, from an empty store. *)
Lemma InsertRecords_new_store (path : string) (kv : string * string)
  (kvs : list (string * string)) (q : Page) (fuel : nat) :
  writeAll first_page (kv :: kvs) = Some q ->
  InsertRecords (S (S fuel)) (new_store path) (kv :: kvs)
  = Ret (map (fun _ => None) (kv :: kvs),
         store_with path (meta_image ++ writePageToDisk_buf q)).
Proof.
  intros H. destruct kv as (k, v). cbn in H.
  destruct (WriteRecord first_page k v) as [(p1, [e|])| |] eqn:E;
    try discriminate.
  destruct (WriteRecord_inv_page _ p1 k v first_page_inv E)
    as (HF & -> & HI1).
  cbn [InsertRecords map].
  unfold InsertRecord. rewrite findPageWithSpace_empty. cbn [bind].
  rewrite CreatePage_new, writePageToDisk_new, SaveMetaDataPage_new.
  unfold InsertRecord_write. rewrite E. cbn [bind].
  rewrite writePageToDisk_store;
    [ | reflexivity | reflexivity
      | now destruct HI1 as ((_ & _ & _ & ?) & _) | reflexivity ].
  cbn [bind].
  rewrite (InsertRecords_store path meta_image (S fuel) kvs _ q
             meta_image_length HI1 eq_refl H).
  reflexivity.
Qed.

Lemma FindRecord_after_inserts (path : string) (kvs : list (string * string))
  (q : Page) (key : string) (fuel : nat) :
  writeAll first_page kvs = Some q ->
  let pm' := store_with path (meta_image ++ writePageToDisk_buf q) in
  FindRecord (S (S fuel)) pm' key
  = match first_value key kvs with
    | Some v => Ret ((v, None), pm')
    | None => Ret (("", Some (errors_New "key not found")), pm')
    end.
Proof.
  intros H pm'.
  pose proof (writeAll_inv _ _ q first_page_inv H) as HIq.
  pose proof (writeAll_PageId _ _ q first_page_inv H) as HPq.
  pose proof (ReadRecord_writeAll _ _ q key first_page_inv eq_refl H) as HR.
  unfold pm'.
  rewrite (FindRecord_store path meta_image q key fuel meta_image_length
             HIq HPq).
  rewrite HR. destruct (first_value key kvs); reflexivity.
Qed.

(** X18. While the records fit into page 1, the manager does what the
    page does: on a new manager over an empty file, if the writes of the
    pairs succeed in order on the first page, leaving [q], then the
    [InsertRecord] calls with these pairs all return nil and leave the
    metadata page followed by the image of [q], and [FindRecord] then
    returns the value of the first pair with the key, or "key not found"
    when no pair has it. *)
Theorem X18_inserts_then_lookup (path : string) (kv : string * string)
  (kvs : list (string * string)) (q : Page) (key : string) (fuel : nat) :
  writeAll first_page (kv :: kvs) = Some q ->
  let pm' := store_with path (meta_image ++ writePageToDisk_buf q) in
  InsertRecords (S (S fuel)) (new_store path) (kv :: kvs)
  = Ret (map (fun _ => None) (kv :: kvs), pm') /\
  FindRecord (S (S fuel)) pm' key
  = match first_value key (kv :: kvs) with
    | Some v => Ret ((v, None), pm')
    | None => Ret (("", Some (errors_New "key not found")), pm')
    end.
Proof.
  intros H pm'. split.
  - now apply InsertRecords_new_store.
  - now apply FindRecord_after_inserts.
Qed.

Lemma X18_inserts_then_lookup_witness :
  let pm' := store_with "test.db" (meta_image ++ writePageToDisk_buf page_axy) in
  InsertRecords 2 (new_store "test.db") [("a", "x"); ("a", "y")]
  = Ret (map (fun _ => None) [("a", "x"); ("a", "y")], pm') /\
  FindRecord 2 pm' "a"
  = match first_value "a" [("a", "x"); ("a", "y")] with
    | Some v => Ret ((v, None), pm')
    | None => Ret (("", Some (errors_New "key not found")), pm')
    end.
Proof.
  apply (X18_inserts_then_lookup "test.db" ("a", "x") [("a", "y")] page_axy
           "a" 0).
  vm_compute. reflexivity.
Defined.

Lemma second_page_inv : page_inv second_page.
Proof. apply (CreatePage_inv (mkPM [] store0 (mkMeta 2 1 1))). Qed.

Lemma LoadPage_same_file (pm1 pm2 : PageManager) (j : Z) :
  fault_free pm1 -> fault_free pm2 -> file_data pm1 = file_data pm2 ->
  0 <= j <= max_page_id ->
  fst (LoadPage pm1 j) = fst (LoadPage pm2 j).
Proof.
  intros H1 H2 HD Hj. rewrite !LoadPage_fault_free by assumption.
  rewrite HD.
  destruct (j * PageSize + PageSize <=? lenZ (file_data pm2)); reflexivity.
Qed.

(** X19. When page 1 has no room, a new page takes the record: on a
    fault-free store that holds the metadata page and a page 1 built by
    successful writes, an insert whose record is larger than the free
    space of page 1 creates page 2, returns nil and leaves page 1 as it
    was; the metadata counts two pages; [FindRecord] finds the new record
    when page 1 does not hold the key. *)
Theorem X19_full_page_allocates_next (path : string)
  (kvs : list (string * string)) (q : Page) (key value : string)
  (fuel : nat) :
  writeAll first_page kvs = Some q ->
  slen key <= MaxKeyBytes -> slen value <= MaxValueBytes ->
  FreeSpace q < recordSize key value ->
  exists pm',
    InsertRecord (S (S fuel))
      (store_with path (meta_image ++ writePageToDisk_buf q)) key value
    = Ret (None, pm') /\
    MetaData pm' = mkMeta 3 2 2 /\
    LoadPage pm' 1 = (inl q, pm') /\
    LoadPage pm' 2 = (inl (written second_page key value), pm') /\
    (first_value key kvs = None ->
     FindRecord (S (S (S fuel))) pm' key = Ret ((value, None), pm')).
Proof.
  intros Hq Hk Hv Hfull.
  pose proof (writeAll_inv _ _ q first_page_inv Hq) as HIq.
  pose proof (writeAll_PageId _ _ q first_page_inv Hq) as HPq.
  pose proof (ReadRecord_writeAll _ _ q key first_page_inv eq_refl Hq) as HR.
  assert (HTq : page_typed q).
  { split; [rewrite HPq; unfold is_uint64; cbn; lia | now destruct HIq]. }
  set (pm := store_with path (meta_image ++ writePageToDisk_buf q)).
  pose proof (holds_store_with path meta_image q meta_image_length) as HH.
  fold pm in HH.
  pose proof (LoadPage_holds path pm q HH HTq) as HL1.
  set (pmA := mkPM [] (Disk_ pm) (mkMeta 3 2 2)).
  assert (HFA : fault_free pmA) by reflexivity.
  assert (HF2 : fits second_page key value).
  { unfold fits, recordSize. cbn [FreeSpace second_page].
    unfold_consts. unfold slen in *. lia. }
  pose proof (written_inv _ _ _ second_page_inv HF2) as HI2.
  assert (HT2 : page_typed second_page).
  { split; [unfold is_uint64; cbn; lia | now destruct second_page_inv]. }
  assert (HT2' : page_typed (written second_page key value)).
  { split; [unfold is_uint64; cbn; lia | now destruct HI2]. }
  assert (Hmax : forall j, 1 <= j <= 2 -> 0 <= j <= max_page_id)
    by (unfold max_page_id; lia).
  (* the empty page 2 is persisted *)
  destruct (writePageToDisk_fault_free pmA second_page HFA)
    as (pmB & HwB & _); [apply (Hmax 2); lia |].
  destruct (LoadPage_after_write pmA pmB second_page HFA HT2)
    as (HFB & HMB & _ & HoB); [apply (Hmax 2); lia | exact HwB |].
  assert (HB1 : LoadPage pmB 1 = (inl q, pmB)).
  { apply HoB; [apply Hmax; lia | discriminate |].
    rewrite (LoadPage_same_file pmA pm 1);
      [ | exact HFA | reflexivity | reflexivity | apply Hmax; lia ].
    now rewrite HL1. }
  (* the metadata is persisted *)
  destruct (SaveMetaDataPage_fault_free pmB HFB) as (pmC & HsC & _).
  destruct (after_SaveMetaDataPage pmB pmC HFB HsC)
    as (HFC & HMC & _ & _ & HoC).
  assert (HC1 : LoadPage pmC 1 = (inl q, pmC)).
  { apply HoC; [unfold max_page_id; lia | now rewrite HB1]. }
  (* the page with the record is persisted *)
  destruct (writePageToDisk_fault_free pmC (written second_page key value) HFC)
    as (pmD & HwD & _); [apply (Hmax 2); lia |].
  destruct (LoadPage_after_write pmC pmD _ HFC HT2')
    as (HFD & HMD & HD2 & HoD); [apply (Hmax 2); lia | exact HwD |].
  change (PageId (written second_page key value)) with 2 in HD2.
  assert (HD1 : LoadPage pmD 1 = (inl q, pmD)).
  { apply HoD; [apply Hmax; lia | discriminate | now rewrite HC1]. }
  assert (HMeta : MetaData pmD = mkMeta 3 2 2)
    by (rewrite HMD, HMC, HMB; reflexivity).
  exists pmD. split; [| split; [exact HMeta | split; [exact HD1 | split]]].
  - unfold InsertRecord, findPageWithSpace.
    cbn [findPageWithSpace_loop].
    change (LastPageId (MetaData pm)) with 1.
    change (1 <=? 1) with true. cbn iota. rewrite HL1. cbn iota.
    unfold HasSpace. fold (recordSize key value).
    destruct (Z.geb_spec (FreeSpace q) (recordSize key value)); [lia |].
    change (LastPageId (MetaData pm)) with 1.
    change (wrap64 (1 + 1) <=? 1) with false. cbn iota. cbn [bind].
    change (CreatePage pm) with (second_page, pmA). cbn iota.
    rewrite HwB, HsC. unfold InsertRecord_write.
    rewrite (WriteRecord_fits second_page key value second_page_inv HF2).
    cbn [bind]. now rewrite HwD.
  - exact HD2.
  - intros Hfv. rewrite Hfv in HR.
    unfold FindRecord. cbn [FindRecord_loop]. rewrite HMeta.
    cbn [LastPageId]. change (1 <=? 2) with true. cbn iota.
    rewrite HD1, HR. cbn [bind]. cbn iota.
    change (wrap64 (1 + 1)) with 2. rewrite !HMeta. cbn [LastPageId].
    change (2 <=? 2) with true. cbn iota. rewrite HD2.
    rewrite (ReadRecord_written_miss second_page key value ""
               second_page_inv HF2 eq_refl).
    reflexivity.
Qed.

Lemma X19_full_page_allocates_next_witness :
  exists pm',
    InsertRecord 2
      (store_with "test.db" (meta_image ++ writePageToDisk_buf c2_page))
      "c" "0123456789ab"
    = Ret (None, pm') /\
    MetaData pm' = mkMeta 3 2 2 /\
    LoadPage pm' 1 = (inl c2_page, pm') /\
    LoadPage pm' 2 = (inl (written second_page "c" "0123456789ab"), pm') /\
    (first_value "c" (firstn 6 c2_inserts) = None ->
     FindRecord 3 pm' "c" = Ret (("0123456789ab", None), pm')).
Proof.
  apply (X19_full_page_allocates_next "test.db" (firstn 6 c2_inserts) c2_page
           "c" "0123456789ab" 0).
  - vm_compute. reflexivity.
  - vm_compute. discriminate.
  - vm_compute. discriminate.
  - vm_compute. reflexivity.
Defined.

(* ------------------------------------------------------------------ *)
(** ** The database facade *)

Lemma NewDatabase_empty (path : string) :
  NewDatabase (inl (mkFile [] [])) path
  = Ret (with_manager (new_store path), None).
Proof. reflexivity. Qed.

(** X20. [Put] then [Get] on a database opened on an empty file: for a key
    and a value within the size limits, [Put] returns nil and [Get] of the
    key returns the value. *)
Theorem X20_put_then_get (path key value : string) (fuel : nat) :
  slen key <= MaxKeyBytes -> slen value <= MaxValueBytes ->
  exists db0 db1,
    NewDatabase (inl (mkFile [] [])) path = Ret (db0, None) /\
    Put (S (S fuel)) db0 key value = Ret (None, db1) /\
    Get (S (S fuel)) db1 key = Ret ((value, None), db1).
Proof.
  intros Hk Hv.
  assert (HF : fits first_page key value).
  { unfold fits, recordSize. cbn [FreeSpace first_page].
    unfold_consts. unfold slen in *. lia. }
  exists (with_manager (new_store path)),
         (with_manager
            (store_with path
               (meta_image
                  ++ writePageToDisk_buf (written first_page key value)))).
  split; [apply NewDatabase_empty |].
  assert (HI1 : page_inv (written first_page key value))
    by (apply written_inv; [apply first_page_inv | exact HF]).
  split.
  - unfold Put. cbn [pageManager with_manager].
    unfold InsertRecord. rewrite findPageWithSpace_empty. cbn [bind].
    rewrite CreatePage_new, writePageToDisk_new, SaveMetaDataPage_new.
    unfold InsertRecord_write.
    rewrite (WriteRecord_fits _ _ _ first_page_inv HF). cbn [bind].
    rewrite writePageToDisk_store;
      [ | reflexivity | reflexivity
        | now destruct HI1 as ((_ & _ & _ & ?) & _) | reflexivity ].
    reflexivity.
  - unfold Get. cbn [pageManager with_manager].
    rewrite (FindRecord_store path meta_image _ key fuel meta_image_length
               HI1 eq_refl).
    rewrite (ReadRecord_written_miss first_page key value ""
               first_page_inv HF eq_refl).
    reflexivity.
Qed.

Lemma X20_put_then_get_witness :
  exists db0 db1,
    NewDatabase (inl (mkFile [] [])) "test.db" = Ret (db0, None) /\
    Put 2 db0 "a" "hello" = Ret (None, db1) /\
    Get 2 db1 "a" = Ret (("hello", None), db1).
Proof.
  apply (X20_put_then_get "test.db" "a" "hello" 0); vm_compute; discriminate.
Defined.

Lemma sub_app_prefix (a b : list byte) (n : Z) :
  lenZ a = n -> sub (a ++ b) 0 n = a.
Proof.
  intros <-. unfold sub, lenZ. rewrite Z.sub_0_r, Nat2Z.id.
  cbn [Z.to_nat skipn].
  rewrite firstn_app, Nat.sub_diag, firstn_all. cbn [firstn].
  apply app_nil_r.
Qed.

(** Opening a database on the file a session left: the metadata read from
    page 0 is the metadata the session had in memory. *)
Lemma NewDatabase_reopen (path : string) (d : list byte) :
  NewDatabase (inl (mkFile (meta_image ++ d) [])) path
  = Ret (with_manager (store_with path (meta_image ++ d)), None).
Proof.
  unfold NewDatabase, NewDisk.
  rewrite LoadMetaPage_fault_free by reflexivity.
  change (file_data (NewPageManager (mkDisk path (mkFile (meta_image ++ d) []))))
    with (meta_image ++ d).
  destruct (Z.leb_spec PageSize (lenZ (meta_image ++ d))) as [_ | H].
  - rewrite (sub_app_prefix meta_image d PageSize meta_image_length).
    change meta_image with (SaveMetaDataPage_buf (mkMeta 2 1 1)) at 1 2 3.
    rewrite SaveMetaDataPage_buf_fields; [reflexivity |].
    unfold meta_typed, is_uint64; cbn; lia.
  - rewrite lenZ_app, meta_image_length in H.
    pose proof (lenZ_nonneg d). lia.
Qed.

(** X21. Records survive a restart: after inserts of pairs that fit into
    page 1 on a store that was empty, a database opened anew on the file
    they left reads the metadata back from page 0 and its manager is the
    one the inserting session ended with; [Get] returns the value of the
    first pair with the key, or "key not found". *)
Theorem X21_records_survive_reopen (path : string) (kv : string * string)
  (kvs : list (string * string)) (q : Page) (key : string) (fuel : nat) :
  writeAll first_page (kv :: kvs) = Some q ->
  exists pm' db,
    InsertRecords (S (S fuel)) (new_store path) (kv :: kvs)
    = Ret (map (fun _ => None) (kv :: kvs), pm') /\
    NewDatabase (inl (File (Disk_ pm'))) path = Ret (db, None) /\
    pageManager db = pm' /\
    Get (S (S fuel)) db key
    = match first_value key (kv :: kvs) with
      | Some v => Ret ((v, None), db)
      | None => Ret (("", Some (errors_New "key not found")), db)
      end.
Proof.
  intros H.
  exists (store_with path (meta_image ++ writePageToDisk_buf q)),
         (with_manager
            (store_with path (meta_image ++ writePageToDisk_buf q))).
  split; [now apply InsertRecords_new_store |].
  split; [apply NewDatabase_reopen |]. split; [reflexivity |].
  unfold Get. cbn [pageManager with_manager].
  rewrite (FindRecord_after_inserts path (kv :: kvs) q key fuel H).
  destruct (first_value key (kv :: kvs)); reflexivity.
Qed.

Lemma X21_records_survive_reopen_witness :
  exists pm' db,
    InsertRecords 2 (new_store "test.db") [("a", "x"); ("a", "y")]
    = Ret (map (fun _ => None) [("a", "x"); ("a", "y")], pm') /\
    NewDatabase (inl (File (Disk_ pm'))) "test.db" = Ret (db, None) /\
    pageManager db = pm' /\
    Get 2 db "a"
    = match first_value "a" [("a", "x"); ("a", "y")] with
      | Some v => Ret ((v, None), db)
      | None => Ret (("", Some (errors_New "key not found")), db)
      end.
Proof.
  apply (X21_records_survive_reopen "test.db" ("a", "x") [("a", "y")]
           page_axy "a" 0).
  vm_compute. reflexivity.
Defined.

(* ------------------------------------------------------------------ *)
(** ** Failed writes during an insert *)





(* ------------------------------------------------------------------ *)
(** ** A page the file does not vouch for *)

(** X26. [LoadPage] does not check what it reads, and [ReadRecord] trusts
    it: when page 1 as loaded has a live first slot (flag 0) whose offset
    leaves no room for the two length bytes inside the 4080-byte buffer,
    [ReadRecord] panics on an out-of-range slice for every key, and so
    does [FindRecord]; no error is returned. *)
Theorem X26_unchecked_slot_panics (fuel : nat) (pm : PageManager) (p : Page)
  (key : string) :
  fst (LoadPage pm 1) = inl p ->
  1 <= LastPageId (MetaData pm) ->
  lenZ (Ptr p) = PageSize - HeaderSize ->
  1 <= Count p ->
  flag (slot_at (Ptr p) 0) = 0 ->
  PageSize - HeaderSize - 2 < offset (slot_at (Ptr p) 0) ->
  ReadRecord p key = Panic /\ FindRecord (S fuel) pm key = Panic.
Proof.
  intros HL Hlast Hlen Hc Hf Ho.
  assert (HR : ReadRecord p key = Panic).
  { unfold ReadRecord.
    destruct (Z.to_nat (Count p)) as [|n] eqn:En; [lia |].
    cbn [ReadRecord_loop].
    rewrite GetSlot_ok by (rewrite ?Hlen; unfold_consts; lia).
    cbn [bind]. rewrite Hf. change (negb (0 =? 0)) with false. cbn iota.
    rewrite get16_Panic by (right; rewrite Hlen; unfold_consts; lia).
    reflexivity. }
  split; [exact HR |].
  unfold FindRecord. cbn [FindRecord_loop].
  destruct (Z.leb_spec 1 (LastPageId (MetaData pm))) as [_ | Hgt]; [| lia].
  destruct (LoadPage pm 1) as (r & pm1). cbn [fst] in HL. subst r.
  rewrite HR. reflexivity.
Qed.

Lemma X26_unchecked_slot_panics_witness :
  ReadRecord corrupt_page "a" = Panic /\
  FindRecord 1 (store_with "test.db"
                  (meta_image ++ writePageToDisk_buf corrupt_page)) "a"
  = Panic.
Proof.
  apply (X26_unchecked_slot_panics 0).
  - vm_compute. reflexivity.
  - vm_compute. intros; discriminate.
  - vm_compute. reflexivity.
  - vm_compute. intros; discriminate.
  - vm_compute. reflexivity.
  - vm_compute. reflexivity.
Defined.
